(** * PYModelForge: a shallow embedding of [model_forge.py]

    The generator reads a database schema through an inspector object and
    prints SQLAlchemy model classes.  This file embeds the functions of
    [model_forge.py] and proves the properties its specification states.

    Conventions.
    - A Python [str] is a [string]; its characters are modelled on the ASCII
      range, where [str.lower], [str.upper] and [str.title] only touch the
      letters A-Z and a-z.
    - A Python exception ([IndexError], [AttributeError]) is [None] in the
      option monad.
    - The inspector is a record of its four methods.  The column dicts it
      hands out are objects: the record holds, for each table, the
      references of the dicts [get_columns] returns, and a store with what
      each dict holds.  [generate_models_content] updates the dicts in place;
      the embedding threads the store, so that a dict returned for two tables
      is seen updated by both. *)

From stdpp Require Import base option list strings gmap fin_maps.
From Stdlib Require Import Ascii NArith Lia.

Local Open Scope char_scope.
Local Open Scope stdpp_scope.

(** ** Characters and strings as Python sees them *)

Module PyStr.

Definition nl : string := String "010" "".

Definition in_range (lo hi c : ascii) : bool :=
  ((N_of_ascii lo <=? N_of_ascii c) && (N_of_ascii c <=? N_of_ascii hi))%N.

Definition isupper (c : ascii) : bool := in_range "A" "Z" c.
Definition islower (c : ascii) : bool := in_range "a" "z" c.

(** [_PyUnicode_IsCased] on the ASCII range. *)
Definition is_cased (c : ascii) : bool := isupper c || islower c.

Definition char_lower (c : ascii) : ascii :=
  if isupper c then ascii_of_N (N_of_ascii c + 32) else c.

Definition char_upper (c : ascii) : ascii :=
  if islower c then ascii_of_N (N_of_ascii c - 32) else c.

Fixpoint smap (f : ascii → ascii) (s : string) : string :=
  match s with
  | EmptyString => EmptyString
  | String c s' => String (f c) (smap f s')
  end.

(** [s.lower()] *)
Definition lower (s : string) : string := smap char_lower s.

(** [s.startswith(k)] *)
Fixpoint startswith (k s : string) : bool :=
  match k, s with
  | EmptyString, _ => true
  | String _ _, EmptyString => false
  | String a k', String b s' => Ascii.eqb a b && startswith k' s'
  end.

(** [k in s]: the substring test, scanning the start positions from the
    left. *)
Fixpoint contains (k s : string) : bool :=
  startswith k s ||
  match s with
  | EmptyString => false
  | String _ s' => contains k s'
  end.

(** What the substring test decides. *)
Definition occurs_in (k s : string) : Prop :=
  ∃ pre post, s = pre +:+ k +:+ post.

(** [s.title()]: a cased character is upper-cased when the character before
    it is not cased, and lower-cased otherwise. *)
Fixpoint title_from (previous_is_cased : bool) (s : string) : string :=
  match s with
  | EmptyString => EmptyString
  | String c s' =>
      String (if previous_is_cased then char_lower c else char_upper c)
             (title_from (is_cased c) s')
  end.

Definition title (s : string) : string := title_from false s.

(** [s.replace(" ", "")] *)
Fixpoint remove_spaces (s : string) : string :=
  match s with
  | EmptyString => EmptyString
  | String c s' =>
      if Ascii.eqb c " " then remove_spaces s' else String c (remove_spaces s')
  end.

Definition is_sep (c : ascii) : bool := Ascii.eqb c "_" || Ascii.eqb c "-".

(** [re.sub(r"([_\-])+", " ", s)]: every maximal run of underscores and
    hyphens becomes one space.  [in_run] tells that the character before
    already belonged to the run being replaced. *)
Fixpoint sub_sep_runs (in_run : bool) (s : string) : string :=
  match s with
  | EmptyString => EmptyString
  | String c s' =>
      if is_sep c
      then (if in_run then sub_sep_runs true s'
            else String " " (sub_sep_runs true s'))
      else String c (sub_sep_runs false s')
  end.

(** Concatenation of a list of strings, [''.join(l)]. *)
Fixpoint join (l : list string) : string :=
  match l with
  | [] => EmptyString
  | s :: l' => s +:+ join l'
  end.

Fixpoint sforall (p : ascii → bool) (s : string) : bool :=
  match s with
  | EmptyString => true
  | String c s' => p c && sforall p s'
  end.

End PyStr.

(** ** The type mapper *)

(** The four SQLAlchemy type classes the generator names. *)
Inductive sa_type := Integer | SaString | Float | DateTime.

(** [cls.__name__] *)
Definition type_name (t : sa_type) : string :=
  match t with
  | Integer => "Integer"
  | SaString => "String"
  | Float => "Float"
  | DateTime => "DateTime"
  end.

(** The dict literal of [get_column_type], in insertion order. *)
Definition type_map : list (string * sa_type) :=
  [ ("integer", Integer); ("bigint", Integer); ("smallint", Integer);
    ("varchar", SaString); ("text", SaString);
    ("float", Float); ("real", Float); ("numeric", Float);
    ("datetime", DateTime); ("timestamp", DateTime); ("date", DateTime) ].

(** The value of a column's ["foreign_key"] entry: a foreign-key object, of
    which the code reads [target_fullname] and which an f-string renders by
    its [str], or an already rendered string. *)
Inductive fk_value :=
| FkObject (target_fullname : string) (as_str : string)
| FkString (s : string).

(** A column dict.  [col_type] is [str(col["type"])]; [foreign_key] is
    [col.get("foreign_key")]. *)
Record Column := {
  name : string;
  col_type : string;
  nullable : bool;
  primary_key : bool;
  foreign_key : option fk_value
}.

(** The loop of [get_column_type] over [type_map.items()], with the
    [return String] that follows it. *)
Fixpoint scan_type_map (items : list (string * sa_type)) (col_type : string)
  : sa_type :=
  match items with
  | [] => SaString
  | (key, value) :: rest =>
      if PyStr.contains key col_type then value else scan_type_map rest col_type
  end.

Definition get_column_type (col : Column) : sa_type :=
  scan_type_map type_map (PyStr.lower (col_type col)).

(** ** The identifier normalizer *)

(** [camel_case]; [s[0]] raises [IndexError] on the empty string. *)
Definition camel_case (s : string) : option string :=
  let s := PyStr.remove_spaces (PyStr.title (PyStr.sub_sep_runs false s)) in
  match s with
  | EmptyString => None
  | String c rest => Some (PyStr.join [String (PyStr.char_upper c) ""; rest])
  end.

(** ** The schema as the inspector reports it *)

(** One entry of [inspector.get_foreign_keys(table)]. *)
Record ForeignKey := {
  constrained_columns : list string;
  referred_table : string;
  referred_columns : list string
}.

(** The identity of a column dict. *)
Definition dict_ref : Type := (string * nat)%type.

(** The four inspector methods the generator calls.  [column_dicts t] are
    the dict objects [inspector.get_columns(t)] returns, in order, and
    [dict_store] is what each of them holds.  [get_pk_constraint] stands for
    [inspector.get_pk_constraint(t)["constrained_columns"]]. *)
Record Inspector := {
  get_table_names : list string;
  column_dicts : string → list dict_ref;
  dict_store : dict_ref → Column;
  get_pk_constraint : string → list string;
  get_foreign_keys : string → list ForeignKey
}.

(** [inspector.get_columns(table)], read through the store. *)
Definition get_columns (inspector : Inspector) (table : string) : list Column :=
  dict_store inspector <$> column_dicts inspector table.

(** The inspector after column dicts were updated in place. *)
Definition with_store (inspector : Inspector) (store : dict_ref → Column) : Inspector :=
  {| get_table_names := get_table_names inspector;
     column_dicts := column_dicts inspector;
     dict_store := store;
     get_pk_constraint := get_pk_constraint inspector;
     get_foreign_keys := get_foreign_keys inspector |}.

(** ** The association classifier *)

(** [set(col for fk in fks for col in fk["constrained_columns"])] *)
Definition fk_column_set (fks : list ForeignKey) : gset string :=
  list_to_set (fk ← fks; constrained_columns fk).

Definition is_association_table (table_name : string) (fks : list ForeignKey)
    (inspector : Inspector) : bool :=
  if bool_decide (length fks ≠ 2) then false
  else
    let pk_columns : gset string :=
      list_to_set (get_pk_constraint inspector table_name) in
    let fk_columns := fk_column_set fks in
    bool_decide (pk_columns = fk_columns).

(** ** The per-table relationship pass *)

Definition many_to_one_rel (relationship_name parent_class : string) : string :=
  relationship_name +:+ " = relationship('" +:+ parent_class +:+ "')".

Definition back_populates_rel (relationship_name parent_class back_populates : string)
  : string :=
  relationship_name +:+ " = relationship('" +:+ parent_class
    +:+ "', back_populates='" +:+ back_populates +:+ "')".

(** [len(constrained_columns) == 1 and constrained_columns[0] not in pk] *)
Definition is_many_to_one (constrained_columns pk : list string) : bool :=
  bool_decide (length constrained_columns = 1) &&
  match constrained_columns with
  | c :: _ => bool_decide (c ∉ pk)
  | [] => false
  end.

(** The body of the loop of [generate_relationships]: the relation appended
    for one foreign key. *)
Definition relation_of_fk (table_name : string) (inspector : Inspector)
    (fk : ForeignKey) : option string :=
  let parent_table := referred_table fk in
  let constrained_columns := constrained_columns fk in
  parent_class ← camel_case parent_table;
  let relationship_name := PyStr.lower parent_table in
  if is_many_to_one constrained_columns (get_pk_constraint inspector table_name)
  then Some (many_to_one_rel relationship_name parent_class)
  else
    let back_populates := PyStr.lower table_name +:+ "s" in
    Some (back_populates_rel relationship_name parent_class back_populates).

Definition generate_relationships (table_name : string) (inspector : Inspector)
  : option (list string) :=
  let fks := get_foreign_keys inspector table_name in
  if is_association_table table_name fks inspector then Some []
  else mapM (relation_of_fk table_name inspector) fks.

(** ** The global many-to-many pass *)

Definition m2m_rel (rel_name class secondary back_populates : string) : string :=
  rel_name +:+ " = relationship('" +:+ class +:+ "', secondary='" +:+ secondary
    +:+ "', back_populates='" +:+ back_populates +:+ "')".

(** [if t not in m: m[t] = []] *)
Definition setdefault_nil (t : string) (m : gmap string (list string))
  : gmap string (list string) :=
  match m !! t with
  | None => <[t := []]> m
  | Some _ => m
  end.

(** [m[t].append(rel)] on a key that is present. *)
Definition append_at (t rel : string) (m : gmap string (list string))
  : gmap string (list string) :=
  alter (λ l, l ++ [rel]) t m.

(** The body of the loop of [generate_many_to_many_relationships].  The dict
    is only ever read by key, so its insertion order is not modelled. *)
Definition m2m_step (inspector : Inspector) (m2m_relationships : gmap string (list string))
    (table : string) : option (gmap string (list string)) :=
  let fks := get_foreign_keys inspector table in
  if is_association_table table fks inspector then
    fk0 ← fks !! 0%nat;
    fk1 ← fks !! 1%nat;
    let table1 := referred_table fk0 in
    let table2 := referred_table fk1 in
    class1 ← camel_case table1;
    class2 ← camel_case table2;
    let rel1 := m2m_rel (table2 +:+ "s") class2 table (table1 +:+ "s") in
    let rel2 := m2m_rel (table1 +:+ "s") class1 table (table2 +:+ "s") in
    let m := setdefault_nil table1 m2m_relationships in
    let m := setdefault_nil table2 m in
    let m := append_at table1 rel1 m in
    let m := append_at table2 rel2 m in
    Some m
  else Some m2m_relationships.

Fixpoint m2m_loop (inspector : Inspector) (m2m_relationships : gmap string (list string))
    (tables : list string) : option (gmap string (list string)) :=
  match tables with
  | [] => Some m2m_relationships
  | table :: rest =>
      m ← m2m_step inspector m2m_relationships table;
      m2m_loop inspector m rest
  end.

Definition generate_many_to_many_relationships (inspector : Inspector)
  : option (gmap string (list string)) :=
  m2m_loop inspector ∅ (get_table_names inspector).

(** ** The model emitter *)

(** Truth value of [col.get("foreign_key")]. *)
Definition fk_truthy (v : option fk_value) : bool :=
  match v with
  | None => false
  | Some (FkObject _ _) => true
  | Some (FkString s) => negb (String.eqb s "")
  end.

(** The text an f-string puts for [col['foreign_key']]. *)
Definition fk_text (v : option fk_value) : string :=
  match v with
  | None => "None"
  | Some (FkObject _ s) => s
  | Some (FkString s) => s
  end.

Definition fk_clause (col : Column) : string :=
  if fk_truthy (foreign_key col)
  then ", ForeignKey('" +:+ fk_text (foreign_key col) +:+ "')"
  else "".

(** One [Column(...)] line of a class body. *)
Definition model_column_line (col : Column) : string :=
  let col_name := name col in
  let col_type := get_column_type col in
  let nullable := if nullable col then "" else ", nullable=False" in
  let pk := if primary_key col then ", primary_key=True" else "" in
  let fk := fk_clause col in
  "    " +:+ col_name +:+ " = Column(" +:+ type_name col_type +:+ nullable
    +:+ pk +:+ fk +:+ ")" +:+ PyStr.nl.

Definition relation_line (rel : string) : string :=
  "    " +:+ rel +:+ PyStr.nl.

Definition generate_model (table_name : string) (cols : list Column)
    (relations : list string) : option string :=
  class_name ← camel_case table_name;
  let model_code := "class " +:+ class_name +:+ "(Base):" +:+ PyStr.nl in
  let model_code :=
    model_code +:+ "    __tablename__ = '" +:+ table_name +:+ "'"
      +:+ PyStr.nl +:+ PyStr.nl in
  let model_code := model_code +:+ PyStr.join (model_column_line <$> cols) in
  let model_code := model_code +:+ PyStr.nl in
  let model_code := model_code +:+ PyStr.join (relation_line <$> relations) in
  Some model_code.

(** [output.write(text + "\n")] *)
Definition write (output text : string) : string :=
  output +:+ text +:+ PyStr.nl.

(** The four [write] calls that open [generate_models_content]. *)
Definition preamble : string :=
  let o := write "" "from sqlalchemy import Column, Integer, String, Float, DateTime, ForeignKey, Table" in
  let o := write o "from sqlalchemy.orm import relationship" in
  let o := write o ("from sqlalchemy.ext.declarative import declarative_base" +:+ PyStr.nl) in
  write o ("Base = declarative_base()" +:+ PyStr.nl).

(** The in-place update of one column dict:
    [column["foreign_key"] = f"{column['foreign_key'].target_fullname}"]
    when the entry is truthy.  A non-empty string has no attribute
    [target_fullname]: [AttributeError]. *)
Definition resolve_foreign_key (column : Column) : option Column :=
  if fk_truthy (foreign_key column) then
    match foreign_key column with
    | Some (FkObject target _) =>
        Some {| name := name column; col_type := col_type column;
                nullable := nullable column; primary_key := primary_key column;
                foreign_key := Some (FkString target) |}
    | _ => None
    end
  else Some column.

(** One [Column(...)] line of a [Table(...)] construct. *)
Definition table_column_line (column : Column) : string :=
  let column_name := name column in
  let column_type := get_column_type column in
  let foreign_key := fk_clause column in
  "    Column('" +:+ column_name +:+ "', " +:+ type_name column_type
    +:+ foreign_key +:+ "),".

(** The text one table adds to the output, from its updated column dicts. *)
Definition table_block (inspector : Inspector) (m2m_relationships : gmap string (list string))
    (table : string) (columns : list Column) : option string :=
  let foreign_keys := get_foreign_keys inspector table in
  if is_association_table table foreign_keys inspector then
    let o := write "" (table +:+ " = Table(") in
    let o := write o ("    '" +:+ table +:+ "', Base.metadata,") in
    let o := foldl (λ o column, write o (table_column_line column)) o columns in
    Some (write o (")" +:+ PyStr.nl))
  else
    relationships ← generate_relationships table inspector;
    let relationships :=
      match m2m_relationships !! table with
      | Some l => relationships ++ l
      | None => relationships
      end in
    model ← generate_model table columns relationships;
    Some (write (write "" model) PyStr.nl).

(** [column["foreign_key"] = ...] on the dict object [column]. *)
Definition store_update (store : dict_ref → Column) (column : dict_ref) (c : Column)
  : dict_ref → Column :=
  λ r, if decide (r = column) then c else store r.

(** The loop [for column in columns] that updates the dicts of a table, one
    object after the other. *)
Fixpoint resolve_dicts (store : dict_ref → Column) (columns : list dict_ref)
  : option (dict_ref → Column) :=
  match columns with
  | [] => Some store
  | column :: rest =>
      c ← resolve_foreign_key (store column);
      resolve_dicts (store_update store column c) rest
  end.

(** The body of the loop over the tables: update the column dicts of the
    table, then write its block from the dicts as they now are. *)
Definition emit_table (m2m_relationships : gmap string (list string))
    (st : string * Inspector) (table : string) : option (string * Inspector) :=
  let '(output, inspector) := st in
  store ← resolve_dicts (dict_store inspector) (column_dicts inspector table);
  let inspector := with_store inspector store in
  let columns := get_columns inspector table in
  block ← table_block inspector m2m_relationships table columns;
  Some (output +:+ block, inspector).

Fixpoint emit_tables (m2m_relationships : gmap string (list string))
    (st : string * Inspector) (tables : list string) : option (string * Inspector) :=
  match tables with
  | [] => Some st
  | table :: rest =>
      st' ← emit_table m2m_relationships st table;
      emit_tables m2m_relationships st' rest
  end.

(** [generate_models_content]: the text returned, and the inspector with the
    column dicts as the run leaves them. *)
Definition generate_models_content (inspector : Inspector)
  : option (string * Inspector) :=
  let output := preamble in
  m2m_relationships ← generate_many_to_many_relationships inspector;
  emit_tables m2m_relationships (output, inspector) (get_table_names inspector).

(** * Notions used to state the properties *)

Definition is_space (c : ascii) : bool := Ascii.eqb c " ".

(** The characters [camel_case] throws away: the separators that the
    regular expression turns into spaces, and the spaces themselves. *)
Definition is_blank (c : ascii) : bool := PyStr.is_sep c || is_space c.

Definition not_blank (c : ascii) : bool := negb (is_blank c).


(** The set comparison of [is_association_table], column by column. *)
Definition pk_covered_exactly (table_name : string) (fks : list ForeignKey)
    (inspector : Inspector) : Prop :=
  ∀ c, c ∈ get_pk_constraint inspector table_name ↔
       ∃ fk, fk ∈ fks ∧ c ∈ constrained_columns fk.

(** What the specification says of the relation emitted for one foreign key
    of an entity table, given the class name of the referred table.  The
    text of the line is written out here, character by character. *)
Inductive fk_relation (table_name : string) (pk : list string) (fk : ForeignKey)
    (parent_class : string) : string → Prop :=
| ManyToOne c :
    constrained_columns fk = [c] → c ∉ pk →
    fk_relation table_name pk fk parent_class
      (PyStr.lower (referred_table fk) +:+ " = relationship('" +:+ parent_class
         +:+ "')")
| BackRefKeyColumn c :
    constrained_columns fk = [c] → c ∈ pk →
    fk_relation table_name pk fk parent_class
      (PyStr.lower (referred_table fk) +:+ " = relationship('" +:+ parent_class
         +:+ "', back_populates='" +:+ (PyStr.lower table_name +:+ "s") +:+ "')")
| BackRefCompound :
    length (constrained_columns fk) ≠ 1 →
    fk_relation table_name pk fk parent_class
      (PyStr.lower (referred_table fk) +:+ " = relationship('" +:+ parent_class
         +:+ "', back_populates='" +:+ (PyStr.lower table_name +:+ "s") +:+ "')").

(** The declarations the dict holds for a table; none when the table is not
    a key. *)
Definition decls (m : gmap string (list string)) (k : string) : list string :=
  default [] (m !! k).

(** The declarations one table of the schema contributes to the entry of
    [k]: nothing for an entity table; for an association table the
    declaration for its first referred table, then the mirror declaration for
    its second referred table. *)
Definition m2m_declarations (inspector : Inspector) (table k : string) : list string :=
  let fks := get_foreign_keys inspector table in
  if is_association_table table fks inspector then
    match fks with
    | [fk0; fk1] =>
        let table1 := referred_table fk0 in
        let table2 := referred_table fk1 in
        match camel_case table1, camel_case table2 with
        | Some class1, Some class2 =>
            (if decide (k = table1)
             then [m2m_rel (table2 +:+ "s") class2 table (table1 +:+ "s")] else [])
            ++
            (if decide (k = table2)
             then [m2m_rel (table1 +:+ "s") class1 table (table2 +:+ "s")] else [])
        | _, _ => []
        end
    | _ => []
    end
  else [].

(** The referred tables of an association table can be normalized. *)
Definition m2m_table_ok (inspector : Inspector) (table : string) : Prop :=
  is_association_table table (get_foreign_keys inspector table) inspector = true →
  Forall (λ fk, is_Some (camel_case (referred_table fk)))
    (get_foreign_keys inspector table).

Definition m2m_names_ok (inspector : Inspector) (tables : list string) : Prop :=
  Forall (m2m_table_ok inspector) tables.

(** The text of the preamble, line by line. *)
Definition preamble_text : string :=
  "from sqlalchemy import Column, Integer, String, Float, DateTime, ForeignKey, Table"
    +:+ PyStr.nl +:+
  "from sqlalchemy.orm import relationship" +:+ PyStr.nl +:+
  "from sqlalchemy.ext.declarative import declarative_base" +:+ PyStr.nl +:+ PyStr.nl +:+
  "Base = declarative_base()" +:+ PyStr.nl +:+ PyStr.nl.

(** The column dicts on which the in-place update does not fail: the
    ["foreign_key"] entry is not a non-empty string. *)
Definition resolvable (column : Column) : Prop :=
  ∀ s, foreign_key column = Some (FkString s) → s = "".

(** What the update makes of a ["foreign_key"] entry, and of a column
    dict. *)
Definition resolved_fk (v : option fk_value) : option fk_value :=
  match v with
  | Some (FkObject target _) => Some (FkString target)
  | _ => v
  end.

Definition resolved_column (column : Column) : Column :=
  {| name := name column; col_type := col_type column;
     nullable := nullable column; primary_key := primary_key column;
     foreign_key := resolved_fk (foreign_key column) |}.

(** The dict objects a run goes through, in the order it does. *)
Definition visits (inspector : Inspector) : list dict_ref :=
  table ← get_table_names inspector; column_dicts inspector table.

(** The dict objects returned for some table of a list. *)
Definition in_tables (tables : list string) (inspector : Inspector) (r : dict_ref)
  : Prop :=
  ∃ t, t ∈ tables ∧ r ∈ column_dicts inspector t.

(** Two inspectors hand out the same snapshot of a schema: the same tables
    in the same order, and for each of them the same dict objects holding the
    same columns, the same primary key and the same foreign keys. *)
Definition agree_on (tables : list string) (i1 i2 : Inspector) : Prop :=
  ∀ t, t ∈ tables →
    column_dicts i1 t = column_dicts i2 t ∧
    get_pk_constraint i1 t = get_pk_constraint i2 t ∧
    get_foreign_keys i1 t = get_foreign_keys i2 t ∧
    ∀ r, r ∈ column_dicts i1 t → dict_store i1 r = dict_store i2 r.

Definition same_schema (i1 i2 : Inspector) : Prop :=
  get_table_names i1 = get_table_names i2 ∧ agree_on (get_table_names i1) i1 i2.


(** No column dict of the listed tables has a ["foreign_key"] entry that
    counts as true. *)
Definition no_fk_entries (inspector : Inspector) : Prop :=
  ∀ t c, t ∈ get_table_names inspector → c ∈ get_columns inspector t →
         fk_truthy (foreign_key c) = false.

(** ** The text of the output as the specification describes it *)







(** * Statements of the specification that the code does not meet *)




(** The claim of C10 as worded: the empty string is the only input on which
    the normalizer fails. *)
Definition camel_case_partial_only_at_empty : Prop :=
  camel_case "" = None ∧ ∀ s : string, s ≠ "" → is_Some (camel_case s).

(** The claim of C2 as worded: the two declarations of an association table
    are named by the lower-cased names of the referred tables. *)
Definition m2m_lowercase_names_claim : Prop :=
  ∀ (inspector : Inspector) (m : gmap string (list string))
    (table : string) (fk0 fk1 : ForeignKey) (class1 class2 : string),
    generate_many_to_many_relationships inspector = Some m →
    table ∈ get_table_names inspector →
    is_association_table table (get_foreign_keys inspector table) inspector = true →
    get_foreign_keys inspector table = [fk0; fk1] →
    camel_case (referred_table fk0) = Some class1 →
    camel_case (referred_table fk1) = Some class2 →
    m2m_rel (PyStr.lower (referred_table fk1) +:+ "s") class2 table
      (PyStr.lower (referred_table fk0) +:+ "s") ∈ decls m (referred_table fk0) ∧
    m2m_rel (PyStr.lower (referred_table fk0) +:+ "s") class1 table
      (PyStr.lower (referred_table fk1) +:+ "s") ∈ decls m (referred_table fk1).

(** * Schemas to run the generator on *)

(** An inspector that hands out a dict object of its own for every column
    of every table: the dict of column [k] of table [t] is [(t, k)]. *)
Definition unshared (tables : list string) (columns : string → list Column)
    (pk : string → list string) (fks : string → list ForeignKey) : Inspector :=
  {| get_table_names := tables;
     column_dicts := λ t, (λ k, (t, k)) <$> seq 0 (length (columns t));
     dict_store := λ r,
       default {| name := ""; col_type := ""; nullable := true;
                  primary_key := false; foreign_key := None |}
               (columns r.1 !! r.2);
     get_pk_constraint := pk;
     get_foreign_keys := fks |}.


(** The database of the test suite. *)
Module TestDb.

Definition col (n t : string) (null pk : bool) (fk : option fk_value) : Column :=
  {| name := n; col_type := t; nullable := null; primary_key := pk;
     foreign_key := fk |}.

Definition fkey (c : string) (t : string) (rc : string) : ForeignKey :=
  {| constrained_columns := [c]; referred_table := t; referred_columns := [rc] |}.

(** [users(id PK, name)], [posts(id PK, title, user_id -> users.id)],
    [tags(id PK, name)], [post_tags(post_id -> posts.id PK, tag_id -> tags.id PK)] *)
Definition inspector : Inspector :=
  unshared
    (["users"; "posts"; "tags"; "post_tags"])
    (λ t,
       if decide (t = "users") then
         [col "id" "INTEGER" false true None; col "name" "VARCHAR" true false None]
       else if decide (t = "posts") then
         [col "id" "INTEGER" false true None; col "title" "VARCHAR" true false None;
          col "user_id" "INTEGER" true false None]
       else if decide (t = "tags") then
         [col "id" "INTEGER" false true None; col "name" "VARCHAR" true false None]
       else if decide (t = "post_tags") then
         [col "post_id" "INTEGER" false true None;
          col "tag_id" "INTEGER" false true None]
       else [])
    (λ t,
       if decide (t = "post_tags") then ["post_id"; "tag_id"] else ["id"])
    (λ t,
       if decide (t = "posts") then [fkey "user_id" "users" "id"]
       else if decide (t = "post_tags") then
         [fkey "post_id" "posts" "id"; fkey "tag_id" "tags" "id"]
       else []).

End TestDb.

(** A schema whose table names have capitals. *)
Module MixedCase.

Definition inspector : Inspector :=
  unshared
    (["Posts"; "Tags"; "PostTags"])
    (λ t,
       if decide (t = "PostTags") then
         [TestDb.col "post_id" "INTEGER" false true None;
          TestDb.col "tag_id" "INTEGER" false true None]
       else [TestDb.col "id" "INTEGER" false true None])
    (λ t,
       if decide (t = "PostTags") then ["post_id"; "tag_id"] else ["id"])
    (λ t,
       if decide (t = "PostTags") then
         [TestDb.fkey "post_id" "Posts" "id"; TestDb.fkey "tag_id" "Tags" "id"]
       else []).

End MixedCase.

(** A schema with two association tables between the same two tables. *)
Module TwoLinks.

Definition inspector : Inspector :=
  unshared
    (["posts"; "tags"; "post_tags"; "post_labels"])
    (λ t,
       if decide (t = "post_tags") then
         [TestDb.col "post_id" "INTEGER" false true None;
          TestDb.col "tag_id" "INTEGER" false true None]
       else if decide (t = "post_labels") then
         [TestDb.col "post_id" "INTEGER" false true None;
          TestDb.col "tag_id" "INTEGER" false true None]
       else [TestDb.col "id" "INTEGER" false true None])
    (λ t,
       if decide (t = "post_tags") then ["post_id"; "tag_id"]
       else if decide (t = "post_labels") then ["post_id"; "tag_id"]
       else ["id"])
    (λ t,
       if decide (t = "post_tags") then
         [TestDb.fkey "post_id" "posts" "id"; TestDb.fkey "tag_id" "tags" "id"]
       else if decide (t = "post_labels") then
         [TestDb.fkey "post_id" "posts" "id"; TestDb.fkey "tag_id" "tags" "id"]
       else []).

End TwoLinks.

(** A schema without tables. *)
Definition empty_inspector : Inspector :=
  unshared
    ([])
    (λ _, [])
    (λ _, [])
    (λ _, []).


(** Column dicts that carry foreign-key objects are rewritten by the run:
    the entry becomes the target name.  A second run over the same dicts
    finds a string where it reads [target_fullname] and fails. *)
Module WithFkObjects.

Definition inspector : Inspector :=
  unshared
    (["users"; "posts"])
    (λ t,
       if decide (t = "posts") then
         [TestDb.col "id" "INTEGER" false true None;
          TestDb.col "user_id" "INTEGER" true false
            (Some (FkObject "users.id" "ForeignKey('users.id')"))]
       else [TestDb.col "id" "INTEGER" false true None])
    (λ _, ["id"])
    (λ t,
       if decide (t = "posts") then [TestDb.fkey "user_id" "users" "id"] else []).

End WithFkObjects.

(** * Further notions: the normal form of a name, the conditions of a run *)

(** The string [camel_case] computes before it takes the first character:
    the substitution of the separator runs, [title], the removal of the
    spaces.  [in_run] and [previous_is_cased] are the states the two scans
    start in. *)
Definition normalize_from (in_run previous_is_cased : bool) (s : string) : string :=
  PyStr.remove_spaces
    (PyStr.title_from previous_is_cased (PyStr.sub_sep_runs in_run s)).

(** A name with at least one character that is no underscore, hyphen or
    space: the names [camel_case] accepts. *)
Definition has_word (s : string) : Prop := PyStr.sforall is_blank s = false.

(** [table] is an association table and refers to [k]. *)
Definition m2m_refers (inspector : Inspector) (table k : string) : Prop :=
  is_association_table table (get_foreign_keys inspector table) inspector = true ∧
  ∃ fk, fk ∈ get_foreign_keys inspector table ∧ referred_table fk = k.

(** An entity table with two foreign keys to the same table:
    [posts(id PK, author_id -> users.id, editor_id -> users.id)]. *)
Module TwoParents.

Definition inspector : Inspector :=
  unshared
    (["users"; "posts"])
    (λ t,
       if decide (t = "posts") then
         [TestDb.col "id" "INTEGER" false true None;
          TestDb.col "author_id" "INTEGER" true false None;
          TestDb.col "editor_id" "INTEGER" true false None]
       else [TestDb.col "id" "INTEGER" false true None])
    (λ _, ["id"])
    (λ t,
       if decide (t = "posts") then
         [TestDb.fkey "author_id" "users" "id"; TestDb.fkey "editor_id" "users" "id"]
       else []).

End TwoParents.

(** An inspector that returns the same column dicts for every table, as a
    mock with a fixed return value does. *)
Module SharedDicts.

Definition inspector : Inspector :=
  {| get_table_names := ["drafts"; "posts"];
     column_dicts := λ _, [("columns", 0); ("columns", 1)];
     dict_store := λ r,
       if decide (r.2 = 0) then TestDb.col "id" "INTEGER" false true None
       else TestDb.col "user_id" "INTEGER" true false
              (Some (FkObject "users.id" "ForeignKey('users.id')"));
     get_pk_constraint := λ _, ["id"];
     get_foreign_keys := λ _, [] |}.

End SharedDicts.

(** An entity table with one foreign key of each kind:
    [Order_Items(order_id PK, line PK, product_id)] with a foreign key on
    [product_id], one on [order_id] and one on [(order_id, line)]. *)
Module Branches.

Definition inspector : Inspector :=
  unshared
    ["Order_Items"]
    (λ _, [TestDb.col "order_id" "INTEGER" false true None;
           TestDb.col "line" "INTEGER" false true None;
           TestDb.col "product_id" "INTEGER" true false None])
    (λ _, ["order_id"; "line"])
    (λ t,
       if decide (t = "Order_Items") then
         [TestDb.fkey "product_id" "Products" "id";
          TestDb.fkey "order_id" "Orders" "id";
          {| constrained_columns := ["order_id"; "line"];
             referred_table := "Order_Lines";
             referred_columns := ["order_id"; "line"] |}]
       else []).

End Branches.

(** The mixed-case tables with a fourth one that refers to [Posts] through
    an ordinary foreign key. *)
Module MixedCaseBlog.

Definition inspector : Inspector :=
  unshared
    ["Posts"; "Tags"; "PostTags"; "Comments"]
    (λ t,
       if decide (t = "PostTags") then
         [TestDb.col "post_id" "INTEGER" false true None;
          TestDb.col "tag_id" "INTEGER" false true None]
       else if decide (t = "Comments") then
         [TestDb.col "id" "INTEGER" false true None;
          TestDb.col "post_id" "INTEGER" true false None]
       else [TestDb.col "id" "INTEGER" false true None])
    (λ t, if decide (t = "PostTags") then ["post_id"; "tag_id"] else ["id"])
    (λ t,
       if decide (t = "PostTags") then
         [TestDb.fkey "post_id" "Posts" "id"; TestDb.fkey "tag_id" "Tags" "id"]
       else if decide (t = "Comments") then [TestDb.fkey "post_id" "Posts" "id"]
       else []).

End MixedCaseBlog.

(** A self-referential association table:
    [follows(follower_id -> users.id PK, followed_id -> users.id PK)]. *)
Module SelfLink.

Definition inspector : Inspector :=
  unshared
    (["users"; "follows"])
    (λ t,
       if decide (t = "follows") then
         [TestDb.col "follower_id" "INTEGER" false true None;
          TestDb.col "followed_id" "INTEGER" false true None]
       else [TestDb.col "id" "INTEGER" false true None])
    (λ t,
       if decide (t = "follows") then ["follower_id"; "followed_id"] else ["id"])
    (λ t,
       if decide (t = "follows") then
         [TestDb.fkey "follower_id" "users" "id"; TestDb.fkey "followed_id" "users" "id"]
       else []).

End SelfLink.

(** The conditions under which the block of a table can be written: the
    tables referred to have names [camel_case] accepts, and so has the table
    itself when it becomes a class. *)
Definition table_ok (inspector : Inspector) (table : string) : Prop :=
  (∀ fk, fk ∈ get_foreign_keys inspector table → has_word (referred_table fk)) ∧
  (is_association_table table (get_foreign_keys inspector table) inspector = false →
   has_word table).

(** The conditions under which the loop can write the block of a table:
    none for an association table; for an entity table, names [camel_case]
    accepts, its own and those of the tables it refers to. *)
Definition block_ok (inspector : Inspector) (table : string) : Prop :=
  is_association_table table (get_foreign_keys inspector table) inspector = true ∨
  (is_association_table table (get_foreign_keys inspector table) inspector = false ∧
   (∀ fk, fk ∈ get_foreign_keys inspector table → has_word (referred_table fk)) ∧
   has_word table).

(** A column dict whose ["foreign_key"] entry is a foreign-key object with
    a non-empty target name: once updated, it cannot be updated again. *)
Definition carries_target (c : Column) : Prop :=
  ∃ target str, foreign_key c = Some (FkObject target str) ∧ target ≠ "".

(** How often a run comes to a dict object. *)
Definition visit_count (inspector : Inspector) (r : dict_ref) : nat :=
  length (filter (λ x, x = r) (visits inspector)).

(** The conditions under which the column dicts can be updated: every dict
    the run comes to can be updated, and one that carries a target name is
    come to once only, that is, it is not returned for two listed tables,
    twice for one table, or for a table listed twice. *)
Definition dicts_ok (inspector : Inspector) : Prop :=
  ∀ r, r ∈ visits inspector →
    resolvable (dict_store inspector r) ∧
    (carries_target (dict_store inspector r) → visit_count inspector r = 1).

(** Names on the ASCII range, where the model of [str.lower], [str.upper]
    and [str.title] is the whole of what Python does. *)
Definition is_ascii_name (s : string) : bool :=
  PyStr.sforall (λ c, (N_of_ascii c <? 128)%N) s.

(** The result of the run on a schema, when there is one. *)
Definition run_of (inspector : Inspector) : string * Inspector :=
  default ("", inspector) (generate_models_content inspector).

(** * Writing the models out *)

(** What [output_models] acts on: the files by path, the paths that
    [open(path, "w")] can open, and the two standard streams. *)
Record World := {
  files : gmap string string;
  can_open : string → bool;
  stdout : string;
  stderr : string
}.

(** [print(text, file=stream)] appends the text and a newline. *)
Definition print (stream text : string) : string :=
  stream +:+ text +:+ PyStr.nl.

(** [output_models(content, output_file)]; [output_file] is [None] by
    default, and [None] and the empty string both count as false.  Opening
    the file with mode ["w"] empties it; a path that cannot be opened raises
    [OSError] before anything is printed. *)
Definition output_models (content : string) (output_file : option string)
    (w : World) : option World :=
  match output_file with
  | Some path =>
      if negb (String.eqb path "") then
        if can_open w path then
          Some {| files := <[path := content]> (files w);
                  can_open := can_open w;
                  stdout := print (stdout w) ("Models have been written to " +:+ path);
                  stderr := stderr w |}
        else None
      else
        Some {| files := files w;
                can_open := can_open w;
                stdout := print (stdout w) content;
                stderr := print (stderr w) "Models have been printed to stdout" |}
  | None =>
      Some {| files := files w;
              can_open := can_open w;
              stdout := print (stdout w) content;
              stderr := print (stderr w) "Models have been printed to stdout" |}
  end.

(** A world with one file, in which every path can be opened. *)
Definition world_with_old_models : World :=
  {| files := {[ "models.py" := "old text" ]};
     can_open := λ _, true;
     stdout := "";
     stderr := "" |}.

(** * Properties *)

Example camel_case_user_profile : camel_case "user_profile" = Some "UserProfile".
Proof. reflexivity. Qed.

Example camel_case_API_key : camel_case "API_key" = Some "ApiKey".
Proof. reflexivity. Qed.

Example camel_case_posts : camel_case "posts" = Some "Posts".
Proof. reflexivity. Qed.

Example get_column_type_INTEGER :
  get_column_type {| name := "id"; col_type := "INTEGER"; nullable := false;
                     primary_key := true; foreign_key := None |} = Integer.
Proof. reflexivity. Qed.

(** ** The substring test *)

Section Substring.

Lemma startswith_spec k s :
  PyStr.startswith k s = true ↔ ∃ post, s = k +:+ post.
Proof.
  revert s. induction k as [|a k IH]; intros s; simpl.
  - split; [intros _; by exists s | done].
  - destruct s as [|b s].
    + split; [done | intros [post H]; discriminate H].
    + rewrite andb_true_iff, IH. split.
      * intros [Hab [post ->]]. apply Ascii.eqb_eq in Hab as ->. by exists post.
      * intros [post H]. injection H as -> ->.
        split; [apply Ascii.eqb_refl | by exists post].
Qed.

Lemma contains_spec k s :
  PyStr.contains k s = true ↔ PyStr.occurs_in k s.
Proof.
  unfold PyStr.occurs_in. induction s as [|b s IH].
  - simpl. rewrite orb_false_r, startswith_spec. split.
    + intros [post H]. by exists "", post.
    + intros [[|c pre] [post H]]; [by exists post | discriminate H].
  - cbn [PyStr.contains]. rewrite orb_true_iff, startswith_spec, IH. split.
    + intros [[post H] | (pre & post & ->)].
      * by exists "", post.
      * by exists (String b pre), post.
    + intros [[|c pre] [post H]].
      * left. by exists post.
      * right. injection H as -> ->. by exists pre, post.
Qed.

Lemma contains_false k s :
  PyStr.contains k s = false ↔ ¬ PyStr.occurs_in k s.
Proof.
  rewrite <- contains_spec. destruct (PyStr.contains k s); naive_solver.
Qed.



Lemma sapp_nil_l s : "" +:+ s = s.
Proof. reflexivity. Qed.

Lemma sapp_cons c a b : String c a +:+ b = String c (a +:+ b).
Proof. reflexivity. Qed.

Lemma sapp_nil_r s : s +:+ "" = s.
Proof.
  induction s as [|c s IH]; [done |]. by rewrite sapp_cons, IH.
Qed.

Lemma sapp_assoc a b c : (a +:+ b) +:+ c = a +:+ b +:+ c.
Proof.
  induction a as [|x a IH]; [done |]. by rewrite !sapp_cons, IH.
Qed.

Lemma slength_app a b :
  String.length (a +:+ b) = String.length a + String.length b.
Proof.
  induction a as [|x a IH]; [done |]. rewrite sapp_cons. simpl. by rewrite IH.
Qed.

(** Two strings that end in the same suffix and are equal have the same
    front part. *)
Lemma sapp_inv_tail a b s : a +:+ s = b +:+ s → a = b.
Proof.
  revert b. induction a as [|x a IH]; intros [|y b] H;
    rewrite ?sapp_cons, ?sapp_nil_l in H.
  - done.
  - apply (f_equal String.length) in H. simpl in H.
    rewrite slength_app in H. lia.
  - apply (f_equal String.length) in H. simpl in H.
    rewrite slength_app in H. lia.
  - injection H as -> H. by rewrite (IH b H).
Qed.

End Substring.

(** ** The type mapper *)

Lemma scan_type_map_none items t :
  (∀ key value, (key, value) ∈ items → ¬ PyStr.occurs_in key t) →
  scan_type_map items t = SaString.
Proof.
  induction items as [|[key value] rest IH]; intros Hno; simpl; [done |].
  assert (PyStr.contains key t = false) as ->.
  { apply contains_false, (Hno key value). left. }
  apply IH. intros k v Hin. apply (Hno k v). by right.
Qed.

Lemma scan_type_map_first items t i key value :
  items !! i = Some (key, value) →
  PyStr.occurs_in key t →
  (∀ j key' value', j < i → items !! j = Some (key', value') →
     ¬ PyStr.occurs_in key' t) →
  scan_type_map items t = value.
Proof.
  revert i. induction items as [|[k v] rest IH]; intros i Hi Hocc Hearlier.
  - done.
  - destruct i as [|i]; simpl in *.
    + injection Hi as -> ->. by apply contains_spec in Hocc as ->.
    + assert (PyStr.contains k t = false) as ->.
      { apply contains_false, (Hearlier 0 k v); [lia | done]. }
      apply (IH i); [done | done |].
      intros j k' v' Hj Hl. apply (Hearlier (S j) k' v'); [lia | done].
Qed.

(** C4. The type mapper is total: it lower-cases the type string and scans
    the fixed table integer, bigint, smallint -> Integer; varchar, text ->
    String; float, real, numeric -> Float; datetime, timestamp, date ->
    DateTime in that order.  The first key that is a substring of the
    lower-cased input decides the result, and when no key is a substring the
    result is the default String. *)
Theorem get_column_type_first_match (col : Column) :
  let t := PyStr.lower (col_type col) in
  type_map =
    [ ("integer", Integer); ("bigint", Integer); ("smallint", Integer);
      ("varchar", SaString); ("text", SaString);
      ("float", Float); ("real", Float); ("numeric", Float);
      ("datetime", DateTime); ("timestamp", DateTime); ("date", DateTime) ] ∧
  (∃ value, get_column_type col = value) ∧
  ((∀ key value, (key, value) ∈ type_map → ¬ PyStr.occurs_in key t) →
     get_column_type col = SaString) ∧
  (∀ i key value,
     type_map !! i = Some (key, value) →
     PyStr.occurs_in key t →
     (∀ j key' value', j < i → type_map !! j = Some (key', value') →
        ¬ PyStr.occurs_in key' t) →
     get_column_type col = value).
Proof.
  intros t. split; [reflexivity |]. split; [by eexists |]. split.
  - apply scan_type_map_none.
  - intros i key value. apply scan_type_map_first.
Qed.




(** ** The identifier normalizer *)

Section CamelCase.

Local Ltac by_bits c :=
  destruct c as [[] [] [] [] [] [] [] []]; vm_compute; try reflexivity;
  try discriminate; auto.

Lemma is_space_char_upper c : is_space (PyStr.char_upper c) = is_space c.
Proof. by_bits c. Qed.

Lemma is_space_char_lower c : is_space (PyStr.char_lower c) = is_space c.
Proof. by_bits c. Qed.





Lemma not_blank_parts c :
  is_blank c = false → PyStr.is_sep c = false ∧ Ascii.eqb c " " = false.
Proof. unfold is_blank, is_space. by intros [-> ->]%orb_false_iff. Qed.

Lemma remove_spaces_empty s :
  PyStr.remove_spaces s = "" ↔ PyStr.sforall is_space s = true.
Proof.
  induction s as [|c s IH]; simpl; [done |]. unfold is_space at 1.
  destruct (Ascii.eqb c " "); simpl; [done |]. split; discriminate.
Qed.

Lemma sforall_space_title b s :
  PyStr.sforall is_space (PyStr.title_from b s) = PyStr.sforall is_space s.
Proof.
  revert b. induction s as [|c s IH]; intros b; simpl; [done |].
  rewrite IH. by destruct b; rewrite ?is_space_char_lower, ?is_space_char_upper.
Qed.

Lemma sforall_space_sub_sep_runs b s :
  PyStr.sforall is_space (PyStr.sub_sep_runs b s) = PyStr.sforall is_blank s.
Proof.
  revert b. induction s as [|c s IH]; intros b; simpl; [done |].
  unfold is_blank at 1. destruct (PyStr.is_sep c); simpl.
  - destruct b; simpl; by rewrite IH.
  - by rewrite IH.
Qed.

(** [camel_case] raises exactly on the strings made of separators and
    spaces only. *)
Lemma camel_case_None s :
  camel_case s = None ↔ PyStr.sforall is_blank s = true.
Proof.
  rewrite <- (sforall_space_sub_sep_runs false), <- (sforall_space_title false),
    <- remove_spaces_empty.
  unfold camel_case, PyStr.title.
  destruct (PyStr.remove_spaces _); [done | split; discriminate].
Qed.




Lemma is_sep_char_upper c : PyStr.is_sep (PyStr.char_upper c) = PyStr.is_sep c.
Proof. by_bits c. Qed.

Lemma is_sep_char_lower c : PyStr.is_sep (PyStr.char_lower c) = PyStr.is_sep c.
Proof. by_bits c. Qed.

Lemma char_upper_idem c : PyStr.char_upper (PyStr.char_upper c) = PyStr.char_upper c.
Proof. by_bits c. Qed.

Lemma not_blank_cased (b : bool) c :
  not_blank (if b then PyStr.char_lower c else PyStr.char_upper c) = not_blank c.
Proof.
  unfold not_blank, is_blank.
  by destruct b;
    rewrite ?is_sep_char_lower, ?is_sep_char_upper,
      ?is_space_char_lower, ?is_space_char_upper.
Qed.

Lemma not_blank_parts' c :
  not_blank c = true → PyStr.is_sep c = false ∧ Ascii.eqb c " " = false.
Proof. intros H. apply not_blank_parts. by apply negb_true_iff. Qed.

Lemma sub_sep_runs_not_blank_id b s :
  PyStr.sforall not_blank s = true → PyStr.sub_sep_runs b s = s.
Proof.
  revert b. induction s as [|c s IH]; intros b; simpl; [done |].
  intros [Hc Hs]%andb_true_iff.
  destruct (not_blank_parts' c Hc) as [-> _]. by rewrite IH.
Qed.

Lemma remove_spaces_not_blank_id s :
  PyStr.sforall not_blank s = true → PyStr.remove_spaces s = s.
Proof.
  induction s as [|c s IH]; simpl; [done |].
  intros [Hc Hs]%andb_true_iff.
  destruct (not_blank_parts' c Hc) as [_ ->]. by rewrite IH.
Qed.

Lemma sforall_not_blank_title b s :
  PyStr.sforall not_blank (PyStr.title_from b s) = PyStr.sforall not_blank s.
Proof.
  revert b. induction s as [|c s IH]; intros b; simpl; [done |].
  by rewrite IH, not_blank_cased.
Qed.

(** What [camel_case] works on after the substitutions has no separator
    and no space left. *)
Lemma normalized_not_blank s : ∀ in_run previous_is_cased,
  PyStr.sforall not_blank
    (PyStr.remove_spaces
       (PyStr.title_from previous_is_cased (PyStr.sub_sep_runs in_run s))) = true.
Proof.
  induction s as [|c s IH]; intros in_run previous_is_cased; [done |].
  cbn [PyStr.sub_sep_runs]. destruct (PyStr.is_sep c) eqn:Hsep.
  - destruct in_run; [apply IH |].
    cbn [PyStr.title_from PyStr.remove_spaces].
    assert (Ascii.eqb (if previous_is_cased then PyStr.char_lower " "
                       else PyStr.char_upper " ") " " = true) as ->
      by (by destruct previous_is_cased).
    apply IH.
  - cbn [PyStr.title_from PyStr.remove_spaces].
    destruct (Ascii.eqb _ " ") eqn:Hsp; [apply IH |].
    cbn [PyStr.sforall]. rewrite IH, andb_true_r.
    unfold not_blank, is_blank, is_space. rewrite Hsp, orb_false_r.
    destruct previous_is_cased;
      by rewrite ?is_sep_char_lower, ?is_sep_char_upper, Hsep.
Qed.

(** The names [camel_case] returns unchanged: the names without separators
    and spaces that [str.title] leaves as they are. *)
Lemma camel_case_fixed_points s :
  camel_case s = Some s ↔
  s ≠ "" ∧ PyStr.sforall not_blank s = true ∧ PyStr.title s = s.
Proof.
  unfold camel_case, PyStr.title. split.
  - intros Hfix.
    assert (PyStr.sforall not_blank s = true) as Hclean.
    { pose proof (normalized_not_blank s false false) as Hnorm.
      destruct (PyStr.remove_spaces _) as [|c rest]; [discriminate Hfix |].
      injection Hfix as <-. cbn [PyStr.join]. rewrite sapp_cons, sapp_nil_l, sapp_nil_r.
      cbn [PyStr.sforall] in Hnorm |- *.
      apply andb_true_iff in Hnorm as [Hc ->]. rewrite andb_true_r.
      by rewrite <- (not_blank_cased false c) in Hc. }
    rewrite (sub_sep_runs_not_blank_id false s Hclean) in Hfix.
    rewrite remove_spaces_not_blank_id in Hfix
      by (by rewrite sforall_not_blank_title).
    destruct s as [|c0 rest0]; [discriminate Hfix |].
    split; [done |]. split; [done |].
    cbn [PyStr.title_from PyStr.join] in Hfix |- *.
    rewrite sapp_cons, sapp_nil_l, sapp_nil_r, char_upper_idem in Hfix.
    by injection Hfix as -> ->.
  - intros (Hne & Hclean & Htitle).
    rewrite (sub_sep_runs_not_blank_id false s Hclean), Htitle,
      (remove_spaces_not_blank_id s Hclean).
    destruct s as [|c rest]; [done |].
    cbn [PyStr.title_from] in Htitle. injection Htitle as Hc _.
    cbn [PyStr.join]. by rewrite sapp_cons, sapp_nil_l, sapp_nil_r, <- Hc, char_upper_idem, Hc.
Qed.

End CamelCase.




(** A word with an inner capital is not kept: [str.title] lowers every
    letter that follows a letter. *)
Example camel_case_UserProfile : camel_case "UserProfile" = Some "Userprofile".
Proof. reflexivity. Qed.

(** C10, counterexample. The name "_" is not empty, yet the regular
    expression and [replace] leave nothing of it and [s[0]] fails. *)
Lemma camel_case_partial_only_at_empty_fails :
  ¬ camel_case_partial_only_at_empty.
Proof.
  intros [_ H]. destruct (H "_") as [x Hx]; [discriminate |].
  vm_compute in Hx. discriminate Hx.
Qed.

(** C10, amended. The normalizer fails on the empty string, and more
    generally exactly on the names that consist of underscores, hyphens and
    spaces only; on every other name it returns a string. *)
Theorem camel_case_fails_iff_blank (s : string) :
  camel_case "" = None ∧
  (camel_case s = None ↔ PyStr.sforall is_blank s = true) ∧
  (is_Some (camel_case s) ↔ PyStr.sforall is_blank s = false).
Proof.
  split; [reflexivity |]. split; [apply camel_case_None |].
  rewrite <- not_true_iff_false, <- camel_case_None, <- not_eq_None_Some.
  reflexivity.
Qed.

(** ** The association classifier *)

Section Classifier.

Implicit Types (fks : list ForeignKey) (inspector : Inspector).

Lemma elem_of_fk_column_set fks c :
  c ∈ fk_column_set fks ↔ ∃ fk, fk ∈ fks ∧ c ∈ constrained_columns fk.
Proof.
  unfold fk_column_set. rewrite elem_of_list_to_set, list_elem_of_bind.
  split; intros (fk & H1 & H2); by exists fk.
Qed.

Lemma is_association_table_spec table_name fks inspector :
  is_association_table table_name fks inspector = true ↔
  length fks = 2 ∧ pk_covered_exactly table_name fks inspector.
Proof.
  unfold is_association_table, pk_covered_exactly.
  case_bool_decide as Hlen.
  - split; [done | intros [? _]; done].
  - rewrite bool_decide_eq_true. split.
    + intros Heq. split; [done |]. intros c.
      rewrite <- elem_of_fk_column_set, <- Heq, elem_of_list_to_set. done.
    + intros [_ Hcov]. apply set_eq. intros c.
      rewrite elem_of_fk_column_set, <- Hcov, elem_of_list_to_set. done.
Qed.

Lemma is_association_table_two table_name fks inspector :
  is_association_table table_name fks inspector = true →
  ∃ fk0 fk1, fks = [fk0; fk1].
Proof.
  intros [Hlen _]%is_association_table_spec.
  destruct fks as [|fk0 [|fk1 [|]]]; try discriminate Hlen. by exists fk0, fk1.
Qed.

End Classifier.

(** C1. A table is classified as an association table exactly when it has
    two foreign keys and the columns the foreign keys constrain, taken
    together, are the primary-key columns.  A table with one foreign key, with
    three or more, or with a primary-key column that no foreign key
    constrains is not an association table. *)
Theorem is_association_table_iff (table_name : string) (fks : list ForeignKey)
    (inspector : Inspector) :
  (is_association_table table_name fks inspector = true ↔
     length fks = 2 ∧
     ∀ c, c ∈ get_pk_constraint inspector table_name ↔
          ∃ fk, fk ∈ fks ∧ c ∈ constrained_columns fk) ∧
  (length fks = 1 → is_association_table table_name fks inspector = false) ∧
  (3 ≤ length fks → is_association_table table_name fks inspector = false) ∧
  ((∃ c, c ∈ get_pk_constraint inspector table_name ∧
         ∀ fk, fk ∈ fks → c ∉ constrained_columns fk) →
     is_association_table table_name fks inspector = false).
Proof.
  split; [apply is_association_table_spec |].
  repeat split.
  - intros Hlen. apply not_true_is_false.
    intros [Hlen' _]%is_association_table_spec. lia.
  - intros Hlen. apply not_true_is_false.
    intros [Hlen' _]%is_association_table_spec. lia.
  - intros (c & Hpk & Hno). apply not_true_is_false.
    intros [_ Hcov]%is_association_table_spec.
    apply Hcov in Hpk as (fk & Hfk & Hc). by apply (Hno fk).
Qed.

(** ** The classifier and the per-table pass on the test database *)

Example post_tags_is_association :
  is_association_table "post_tags" (get_foreign_keys TestDb.inspector "post_tags")
    TestDb.inspector = true.
Proof. vm_compute. reflexivity. Qed.

Example users_is_entity :
  is_association_table "users" (get_foreign_keys TestDb.inspector "users")
    TestDb.inspector = false.
Proof. vm_compute. reflexivity. Qed.

Example posts_relationships :
  generate_relationships "posts" TestDb.inspector = Some ["users = relationship('Users')"].
Proof. vm_compute. reflexivity. Qed.

(** ** The per-table pass *)

Lemma relation_of_fk_spec table_name inspector fk parent_class :
  camel_case (referred_table fk) = Some parent_class →
  ∃ rel, relation_of_fk table_name inspector fk = Some rel ∧
         fk_relation table_name (get_pk_constraint inspector table_name) fk
           parent_class rel.
Proof.
  intros Hcls. unfold relation_of_fk. rewrite Hcls. cbn [mbind option_bind].
  unfold is_many_to_one.
  destruct (constrained_columns fk) as [|c [|c' cs]] eqn:Hcc.
  - eexists. split; [reflexivity |]. unfold back_populates_rel.
    apply BackRefCompound. by rewrite Hcc.
  - cbn [length]. rewrite bool_decide_eq_true_2 by done. cbn [andb].
    case_bool_decide as Hc.
    + eexists. split; [reflexivity |]. unfold many_to_one_rel.
      by apply (ManyToOne _ _ _ _ c).
    + eexists. split; [reflexivity |]. unfold back_populates_rel.
      by apply (BackRefKeyColumn _ _ _ _ c).
  - rewrite bool_decide_eq_false_2 by (cbn; lia). cbn [andb].
    eexists. split; [reflexivity |]. unfold back_populates_rel.
    apply BackRefCompound. rewrite Hcc. cbn. lia.
Qed.

(** C3. For an entity table whose referred table names can be normalized,
    the per-table pass returns one relation per foreign key, in order.  A
    foreign key with exactly one constrained column outside the primary key
    gives the bare many-to-one line, [parent = relationship('Parent')]; a
    foreign key whose single column is in the primary key, and a foreign key
    that does not have exactly one column, give the line with
    [back_populates] set to the lower-cased name of the referencing table
    followed by "s".  [fk_relation] spells the text of the lines out. *)
Theorem generate_relationships_branches (table_name : string) (inspector : Inspector) :
  is_association_table table_name (get_foreign_keys inspector table_name)
    inspector = false →
  Forall (λ fk, is_Some (camel_case (referred_table fk)))
    (get_foreign_keys inspector table_name) →
  ∃ relations,
    generate_relationships table_name inspector = Some relations ∧
    Forall2 (λ fk rel, ∃ parent_class,
               camel_case (referred_table fk) = Some parent_class ∧
               fk_relation table_name (get_pk_constraint inspector table_name)
                 fk parent_class rel)
      (get_foreign_keys inspector table_name) relations.
Proof.
  intros Hentity Hnames. unfold generate_relationships. rewrite Hentity.
  clear Hentity. revert Hnames.
  generalize (get_foreign_keys inspector table_name) as fks.
  intros fks Hnames.
  induction Hnames as [|fk fks [cls Hcls] _ (rels & Hrels & Hall)].
  - exists []. split; [reflexivity | constructor].
  - destruct (relation_of_fk_spec table_name inspector fk cls Hcls) as (rel & Hrel & Hspec).
    exists (rel :: rels). split.
    + cbn [mapM]. rewrite Hrel. cbn [mbind option_bind]. rewrite Hrels. reflexivity.
    + constructor; [by exists cls | done].
Qed.

Lemma generate_relationships_branches_witness :
  ∃ relations,
    generate_relationships "Order_Items" Branches.inspector = Some relations ∧
    Forall2 (λ fk rel, ∃ parent_class,
               camel_case (referred_table fk) = Some parent_class ∧
               fk_relation "Order_Items"
                 (get_pk_constraint Branches.inspector "Order_Items")
                 fk parent_class rel)
      (get_foreign_keys Branches.inspector "Order_Items") relations.
Proof.
  apply (generate_relationships_branches "Order_Items" Branches.inspector).
  - vm_compute. reflexivity.
  - apply Forall_cons. split; [by exists "Products" |].
    apply Forall_cons. split; [by exists "Orders" |].
    apply Forall_cons. split; [by exists "OrderLines" | constructor].
Defined.

(** The three kinds of foreign key side by side: a column outside the
    primary key, a column of the primary key, two columns. *)
Example generate_relationships_three_kinds :
  generate_relationships "Order_Items" Branches.inspector =
  Some ["products = relationship('Products')";
        "orders = relationship('Orders', back_populates='order_itemss')";
        "order_lines = relationship('OrderLines', back_populates='order_itemss')"].
Proof. vm_compute. reflexivity. Qed.

(** ** The global many-to-many pass *)

Section ManyToMany.

Implicit Types (m : gmap string (list string)) (inspector : Inspector).

Lemma decls_setdefault_nil t m k : decls (setdefault_nil t m) k = decls m k.
Proof.
  unfold decls, setdefault_nil. destruct (m !! t) eqn:Ht; [done |].
  destruct (decide (t = k)) as [-> | Hne].
  - by rewrite lookup_insert_eq, Ht.
  - by rewrite lookup_insert_ne.
Qed.

Lemma setdefault_nil_present t m : is_Some (setdefault_nil t m !! t).
Proof.
  unfold setdefault_nil. destruct (m !! t) eqn:Ht.
  - rewrite Ht. by eexists.
  - rewrite lookup_insert_eq. by eexists.
Qed.

Lemma setdefault_nil_keeps t t' m :
  is_Some (m !! t') → is_Some (setdefault_nil t m !! t').
Proof.
  intros Hin. unfold setdefault_nil. destruct (m !! t) eqn:Ht; [done |].
  destruct (decide (t = t')) as [-> | Hne].
  - rewrite lookup_insert_eq. by eexists.
  - by rewrite lookup_insert_ne.
Qed.

Lemma decls_append_at t rel m k :
  is_Some (m !! t) →
  decls (append_at t rel m) k = decls m k ++ (if decide (k = t) then [rel] else []).
Proof.
  intros [l Hl]. unfold decls, append_at.
  destruct (decide (k = t)) as [-> | Hne].
  - by rewrite lookup_alter_eq, Hl.
  - rewrite lookup_alter_ne by done. by rewrite app_nil_r.
Qed.

Lemma append_at_keeps t rel t' m :
  is_Some (m !! t') → is_Some (append_at t rel m !! t').
Proof.
  intros [l Hl]. unfold append_at. destruct (decide (t = t')) as [-> | Hne].
  - rewrite lookup_alter_eq, Hl. by eexists.
  - rewrite lookup_alter_ne by done. by exists l.
Qed.

(** One round of the loop appends to each entry what the table contributes
    to it, and changes nothing else. *)
Lemma m2m_step_decls inspector m table m' :
  m2m_step inspector m table = Some m' →
  ∀ k, decls m' k = decls m k ++ m2m_declarations inspector table k.
Proof.
  unfold m2m_step, m2m_declarations. intros Hstep k.
  destruct (is_association_table _ _ _) eqn:Hassoc.
  - destruct (is_association_table_two _ _ _ Hassoc) as (fk0 & fk1 & Hfks).
    rewrite Hfks in Hstep |- *. cbn [lookup list_lookup mbind option_bind] in Hstep.
    destruct (camel_case (referred_table fk0)) as [class1|]; [| discriminate Hstep].
    destruct (camel_case (referred_table fk1)) as [class2|]; [| discriminate Hstep].
    cbn [mbind option_bind] in Hstep. injection Hstep as <-.
    rewrite decls_append_at.
    2:{ apply append_at_keeps, setdefault_nil_present. }
    rewrite decls_append_at.
    2:{ apply setdefault_nil_keeps, setdefault_nil_present. }
    by rewrite !decls_setdefault_nil, <- app_assoc.
  - injection Hstep as <-. by rewrite app_nil_r.
Qed.

Lemma m2m_step_total inspector m table :
  m2m_table_ok inspector table → is_Some (m2m_step inspector m table).
Proof.
  intros Hok. unfold m2m_step.
  destruct (is_association_table _ _ _) eqn:Hassoc; [| by eexists].
  destruct (is_association_table_two _ _ _ Hassoc) as (fk0 & fk1 & Hfks).
  specialize (Hok Hassoc). rewrite Hfks in Hok |- *.
  apply Forall_cons in Hok as [[class1 H1] Hok].
  apply Forall_cons in Hok as [[class2 H2] _].
  cbn [lookup list_lookup mbind option_bind].
  rewrite H1, H2. by eexists.
Qed.

Lemma m2m_loop_decls inspector tables : ∀ m m',
  m2m_loop inspector m tables = Some m' →
  ∀ k, decls m' k = decls m k ++ (table ← tables; m2m_declarations inspector table k).
Proof.
  induction tables as [|table rest IH]; intros m m' Hloop k; cbn in Hloop.
  - injection Hloop as <-. by rewrite app_nil_r.
  - destruct (m2m_step inspector m table) as [m1|] eqn:Hstep; [| discriminate Hloop].
    cbn in Hloop. rewrite (IH m1 m' Hloop k), (m2m_step_decls _ _ _ _ Hstep k).
    by rewrite <- app_assoc.
Qed.

Lemma m2m_loop_total inspector tables : ∀ m,
  m2m_names_ok inspector tables → is_Some (m2m_loop inspector m tables).
Proof.
  induction tables as [|table rest IH]; intros m Hok; cbn.
  - by eexists.
  - apply Forall_cons in Hok as [Htable Hrest].
    destruct (m2m_step_total inspector m table Htable) as [m1 Hstep].
    rewrite Hstep. cbn. by apply IH.
Qed.

(** The pass as a whole: it returns, and the entry of [k] lists, in the
    order of the tables, what each table contributes to it. *)
Lemma generate_many_to_many_relationships_decls inspector :
  m2m_names_ok inspector (get_table_names inspector) →
  ∃ m, generate_many_to_many_relationships inspector = Some m ∧
       ∀ k, decls m k =
            table ← get_table_names inspector; m2m_declarations inspector table k.
Proof.
  intros Hok. unfold generate_many_to_many_relationships.
  destruct (m2m_loop_total inspector (get_table_names inspector) ∅ Hok) as [m Hm].
  exists m. split; [done |]. intros k.
  by rewrite (m2m_loop_decls _ _ _ _ Hm k).
Qed.

(** Both declarations of an association table that is listed are present. *)
Lemma m2m_declarations_pair inspector table fk0 fk1 class1 class2 :
  is_association_table table (get_foreign_keys inspector table) inspector = true →
  get_foreign_keys inspector table = [fk0; fk1] →
  camel_case (referred_table fk0) = Some class1 →
  camel_case (referred_table fk1) = Some class2 →
  m2m_rel (referred_table fk1 +:+ "s") class2 table (referred_table fk0 +:+ "s")
    ∈ m2m_declarations inspector table (referred_table fk0) ∧
  m2m_rel (referred_table fk0 +:+ "s") class1 table (referred_table fk1 +:+ "s")
    ∈ m2m_declarations inspector table (referred_table fk1).
Proof.
  intros Hassoc Hfks H1 H2. unfold m2m_declarations.
  rewrite Hassoc, Hfks, H1, H2. split.
  - rewrite decide_True by done. by left.
  - apply elem_of_app. right. rewrite decide_True by done. by left.
Qed.

End ManyToMany.

Example m2m_of_Posts :
  (λ m, decls m "Posts") <$> generate_many_to_many_relationships MixedCase.inspector =
  Some ["Tagss = relationship('Tags', secondary='PostTags', back_populates='Postss')"].
Proof. vm_compute. reflexivity. Qed.

Example m2m_of_posts :
  (λ m, decls m "posts") <$> generate_many_to_many_relationships TwoLinks.inspector =
  Some ["tagss = relationship('Tags', secondary='post_tags', back_populates='postss')";
        "tagss = relationship('Tags', secondary='post_labels', back_populates='postss')"].
Proof. vm_compute. reflexivity. Qed.

Lemma m2m_rel_secondary_inj rel_name class secondary secondary' back_populates :
  m2m_rel rel_name class secondary back_populates =
  m2m_rel rel_name class secondary' back_populates →
  secondary = secondary'.
Proof.
  unfold m2m_rel. intros H.
  do 4 apply (inj (String.append _)) in H.
  by apply sapp_inv_tail in H.
Qed.

Lemma elem_of_bind_table {A} (f : string → list A) (tables : list string) table x :
  table ∈ tables → x ∈ f table → x ∈ (t ← tables; f t).
Proof. intros Ht Hx. apply list_elem_of_bind. by exists table. Qed.

(** The declarations are not named by the lower-cased names.  For the
    association table PostTags between Posts and Tags the pass names the
    relation of Posts "Tagss", with back-reference "Postss": the table names
    are used as they are. *)
Lemma m2m_lowercase_names_claim_fails : ¬ m2m_lowercase_names_claim.
Proof.
  intros H.
  assert (∃ m, generate_many_to_many_relationships MixedCase.inspector = Some m ∧
               decls m "Posts" =
               ["Tagss = relationship('Tags', secondary='PostTags', back_populates='Postss')"])
    as (m & Hm & Hposts).
  { eexists. split; [reflexivity |]. vm_compute. reflexivity. }
  destruct (H MixedCase.inspector m "PostTags"
              (TestDb.fkey "post_id" "Posts" "id") (TestDb.fkey "tag_id" "Tags" "id")
              "Posts" "Tags" Hm) as [H1 _].
  - apply list_elem_of_In. right. right. left. reflexivity.
  - vm_compute. reflexivity.
  - reflexivity.
  - reflexivity.
  - reflexivity.
  - cbn [TestDb.fkey referred_table] in H1. rewrite Hposts in H1.
    apply list_elem_of_singleton in H1. vm_compute in H1. discriminate H1.
Qed.

(** C2. The many-to-many pass does not lower-case the names it builds,
    where the per-table pass does.  On the tables Posts, Tags, PostTags and
    Comments, the entry of Posts is the relation named "Tagss" with
    back-reference "Postss", and the entry of Tags its mirror named "Postss"
    with back-reference "Tagss", not "tagss" and "postss"; for the foreign key
    of Comments to Posts the per-table pass writes the lower-cased name
    "posts". *)
Theorem m2m_names_keep_the_case_of_table_names :
  (λ m, (decls m "Posts", decls m "Tags"))
    <$> generate_many_to_many_relationships MixedCaseBlog.inspector =
  Some (["Tagss = relationship('Tags', secondary='PostTags', back_populates='Postss')"],
        ["Postss = relationship('Posts', secondary='PostTags', back_populates='Tagss')"]) ∧
  generate_relationships "Comments" MixedCaseBlog.inspector =
  Some ["posts = relationship('Posts')"].
Proof. split; vm_compute; reflexivity. Qed.

(** What the pass does emit.  When the referred tables of the association
    tables can be normalized, the pass returns, and for every association
    table listed, with foreign keys to [table1] and [table2], the entry of
    [table1] holds the relation named [table2 + "s"] (the name as it is) to
    the class of [table2], with the association table as secondary and
    [table1 + "s"] as back-reference, and the entry of [table2] holds the
    mirror declaration.  The entries hold nothing but these pairs: the entry
    of a key lists, table by table, the declarations [m2m_declarations]
    gives. *)
Theorem m2m_pass_emits_pairs (inspector : Inspector) :
  m2m_names_ok inspector (get_table_names inspector) →
  ∃ m, generate_many_to_many_relationships inspector = Some m ∧
    (∀ table fk0 fk1 class1 class2,
       table ∈ get_table_names inspector →
       is_association_table table (get_foreign_keys inspector table) inspector = true →
       get_foreign_keys inspector table = [fk0; fk1] →
       camel_case (referred_table fk0) = Some class1 →
       camel_case (referred_table fk1) = Some class2 →
       m2m_rel (referred_table fk1 +:+ "s") class2 table (referred_table fk0 +:+ "s")
         ∈ decls m (referred_table fk0) ∧
       m2m_rel (referred_table fk0 +:+ "s") class1 table (referred_table fk1 +:+ "s")
         ∈ decls m (referred_table fk1)) ∧
    (∀ k, decls m k =
          table ← get_table_names inspector; m2m_declarations inspector table k).
Proof.
  intros Hok.
  destruct (generate_many_to_many_relationships_decls inspector Hok) as (m & Hm & Hdecls).
  exists m. split; [done |]. split; [| done].
  intros table fk0 fk1 class1 class2 Hin Hassoc Hfks H1 H2.
  destruct (m2m_declarations_pair inspector table fk0 fk1 class1 class2
              Hassoc Hfks H1 H2) as [Hrel1 Hrel2].
  rewrite !Hdecls. split.
  - by apply (elem_of_bind_table _ _ table).
  - by apply (elem_of_bind_table _ _ table).
Qed.

Lemma m2m_pass_emits_pairs_witness :
  ∃ m, generate_many_to_many_relationships TestDb.inspector = Some m ∧
    (∀ table fk0 fk1 class1 class2,
       table ∈ get_table_names TestDb.inspector →
       is_association_table table (get_foreign_keys TestDb.inspector table)
         TestDb.inspector = true →
       get_foreign_keys TestDb.inspector table = [fk0; fk1] →
       camel_case (referred_table fk0) = Some class1 →
       camel_case (referred_table fk1) = Some class2 →
       m2m_rel (referred_table fk1 +:+ "s") class2 table (referred_table fk0 +:+ "s")
         ∈ decls m (referred_table fk0) ∧
       m2m_rel (referred_table fk0 +:+ "s") class1 table (referred_table fk1 +:+ "s")
         ∈ decls m (referred_table fk1)) ∧
    (∀ k, decls m k =
          table ← get_table_names TestDb.inspector;
          m2m_declarations TestDb.inspector table k).
Proof.
  apply (m2m_pass_emits_pairs TestDb.inspector).
  apply (bool_decide_unpack _). vm_compute. exact I.
Defined.

(** C8. When two distinct association tables [a] and [b] of the schema both
    link [table1] and [table2], in either order of their foreign keys, the
    entry of [table1] holds the declaration made for [a] and the one made for
    [b], which differ, and so does the entry of [table2]: nothing is merged
    or dropped. *)
Theorem m2m_declarations_accumulate (inspector : Inspector) (a b : string)
    (fa0 fa1 fb0 fb1 : ForeignKey) (table1 table2 class1 class2 : string) :
  m2m_names_ok inspector (get_table_names inspector) →
  a ∈ get_table_names inspector →
  b ∈ get_table_names inspector →
  a ≠ b →
  is_association_table a (get_foreign_keys inspector a) inspector = true →
  is_association_table b (get_foreign_keys inspector b) inspector = true →
  get_foreign_keys inspector a = [fa0; fa1] →
  get_foreign_keys inspector b = [fb0; fb1] →
  referred_table fa0 = table1 → referred_table fa1 = table2 →
  (referred_table fb0 = table1 ∧ referred_table fb1 = table2) ∨
  (referred_table fb0 = table2 ∧ referred_table fb1 = table1) →
  camel_case table1 = Some class1 →
  camel_case table2 = Some class2 →
  ∃ m, generate_many_to_many_relationships inspector = Some m ∧
    let rel1 t := m2m_rel (table2 +:+ "s") class2 t (table1 +:+ "s") in
    let rel2 t := m2m_rel (table1 +:+ "s") class1 t (table2 +:+ "s") in
    rel1 a ∈ decls m table1 ∧ rel1 b ∈ decls m table1 ∧ rel1 a ≠ rel1 b ∧
    rel2 a ∈ decls m table2 ∧ rel2 b ∈ decls m table2 ∧ rel2 a ≠ rel2 b.
Proof.
  intros Hok Ha Hb Hab Hassoc_a Hassoc_b Hfa Hfb Ha0 Ha1 Horient H1 H2.
  destruct (generate_many_to_many_relationships_decls inspector Hok) as (m & Hm & Hdecls).
  exists m. split; [done |]. cbn zeta.
  destruct (m2m_declarations_pair inspector a fa0 fa1 class1 class2
              Hassoc_a Hfa) as [Ha_1 Ha_2]; [by rewrite Ha0 | by rewrite Ha1 |].
  rewrite Ha0, Ha1 in Ha_1, Ha_2.
  assert (m2m_rel (table2 +:+ "s") class2 b (table1 +:+ "s")
            ∈ m2m_declarations inspector b table1 ∧
          m2m_rel (table1 +:+ "s") class1 b (table2 +:+ "s")
            ∈ m2m_declarations inspector b table2) as [Hb_1 Hb_2].
  { destruct Horient as [[Hb0 Hb1] | [Hb0 Hb1]].
    - destruct (m2m_declarations_pair inspector b fb0 fb1 class1 class2
                  Hassoc_b Hfb) as [Hb_1 Hb_2]; [by rewrite Hb0 | by rewrite Hb1 |].
      by rewrite Hb0, Hb1 in Hb_1, Hb_2.
    - destruct (m2m_declarations_pair inspector b fb0 fb1 class2 class1
                  Hassoc_b Hfb) as [Hb_1 Hb_2]; [by rewrite Hb0 | by rewrite Hb1 |].
      by rewrite Hb0, Hb1 in Hb_1, Hb_2. }
  rewrite !Hdecls. repeat split.
  - by apply (elem_of_bind_table _ _ a).
  - by apply (elem_of_bind_table _ _ b).
  - intros Heq. by apply Hab, (m2m_rel_secondary_inj _ _ _ _ _ Heq).
  - by apply (elem_of_bind_table _ _ a).
  - by apply (elem_of_bind_table _ _ b).
  - intros Heq. by apply Hab, (m2m_rel_secondary_inj _ _ _ _ _ Heq).
Qed.

Lemma m2m_declarations_accumulate_witness :
  ∃ m, generate_many_to_many_relationships TwoLinks.inspector = Some m ∧
    let rel1 t := m2m_rel ("tags" +:+ "s") "Tags" t ("posts" +:+ "s") in
    let rel2 t := m2m_rel ("posts" +:+ "s") "Posts" t ("tags" +:+ "s") in
    rel1 "post_tags" ∈ decls m "posts" ∧ rel1 "post_labels" ∈ decls m "posts" ∧
    rel1 "post_tags" ≠ rel1 "post_labels" ∧
    rel2 "post_tags" ∈ decls m "tags" ∧ rel2 "post_labels" ∈ decls m "tags" ∧
    rel2 "post_tags" ≠ rel2 "post_labels".
Proof.
  apply (m2m_declarations_accumulate TwoLinks.inspector "post_tags" "post_labels"
           (TestDb.fkey "post_id" "posts" "id") (TestDb.fkey "tag_id" "tags" "id")
           (TestDb.fkey "post_id" "posts" "id") (TestDb.fkey "tag_id" "tags" "id")
           "posts" "tags" "Posts" "Tags").
  - apply (bool_decide_unpack _). vm_compute. exact I.
  - apply (bool_decide_unpack _). vm_compute. exact I.
  - apply (bool_decide_unpack _). vm_compute. exact I.
  - discriminate.
  - vm_compute. reflexivity.
  - vm_compute. reflexivity.
  - reflexivity.
  - reflexivity.
  - reflexivity.
  - reflexivity.
  - left. split; reflexivity.
  - reflexivity.
  - reflexivity.
Defined.

(** ** The full generation pass *)

(** C7. On a schema with no tables the many-to-many pass returns the empty
    mapping, and the generation pass returns the preamble, the import lines
    and the declarative base, and nothing after it. *)
Theorem generate_models_content_empty_schema (inspector : Inspector) :
  get_table_names inspector = [] →
  generate_many_to_many_relationships inspector = Some ∅ ∧
  generate_models_content inspector = Some (preamble, inspector) ∧
  preamble = preamble_text.
Proof.
  intros Hnone. unfold generate_models_content, generate_many_to_many_relationships.
  rewrite Hnone. cbn [m2m_loop emit_tables mbind option_bind].
  repeat split.
Qed.

Lemma generate_models_content_empty_schema_witness :
  generate_many_to_many_relationships empty_inspector = Some ∅ ∧
  generate_models_content empty_inspector = Some (preamble, empty_inspector) ∧
  preamble = preamble_text.
Proof. apply (generate_models_content_empty_schema empty_inspector). reflexivity. Defined.


(** *** The column dicts as objects *)

Section Store.

Implicit Types (store s : dict_ref → Column) (ids : list dict_ref) (c : Column).

Lemma resolve_foreign_key_Some c c' :
  resolve_foreign_key c = Some c' ↔ resolvable c ∧ c' = resolved_column c.
Proof.
  unfold resolve_foreign_key, resolvable, resolved_column.
  destruct c as [n t nu pk [[target str | s] |]]; cbn.
  - split; [intros [= <-]; by split | by intros [_ ->]].
  - destruct (String.eqb_spec s "") as [-> | Hne]; cbn.
    + split; [| by intros [_ ->]].
      intros [= <-]. split; [| done]. by intros s0 [= <-].
    + split; [done |]. intros [Hs _]. by destruct (Hne (Hs s eq_refl)).
  - split; [intros [= <-]; by split | by intros [_ ->]].
Qed.

Lemma resolved_column_idem c : resolved_column (resolved_column c) = resolved_column c.
Proof. by destruct c as [n t nu pk [[target str | s] |]]. Qed.

Lemma resolve_foreign_key_falsy c :
  fk_truthy (foreign_key c) = false → resolve_foreign_key c = Some c.
Proof. intros H. unfold resolve_foreign_key. by rewrite H. Qed.

Lemma resolved_column_falsy c :
  fk_truthy (foreign_key c) = false → resolved_column c = c.
Proof. by destruct c as [n t nu pk [[target str | s] |]]. Qed.

(** Going through a list of dicts and then through another is going through
    the two in a row. *)
Lemma resolve_dicts_app ids1 ids2 : ∀ s,
  resolve_dicts s (ids1 ++ ids2) =
  s1 ← resolve_dicts s ids1; resolve_dicts s1 ids2.
Proof.
  induction ids1 as [|r ids1 IH]; intros s; [done |].
  cbn [app resolve_dicts].
  destruct (resolve_foreign_key (s r)) as [c|]; [| done]. cbn. apply IH.
Qed.

(** What the loop leaves in the store: the dicts it went through are
    updated, the others are as they were. *)
Lemma resolve_dicts_spec ids : ∀ s s',
  resolve_dicts s ids = Some s' →
  ∀ r, s' r = if decide (r ∈ ids) then resolved_column (s r) else s r.
Proof.
  induction ids as [|r0 ids IH]; intros s s' Hres r.
  - injection Hres as <-. rewrite decide_False; [done | by intros ?%elem_of_nil].
  - cbn [resolve_dicts] in Hres.
    destruct (resolve_foreign_key (s r0)) as [c|] eqn:Hc; [| discriminate Hres].
    apply resolve_foreign_key_Some in Hc as [_ ->].
    cbn [mbind option_bind] in Hres. rewrite (IH _ _ Hres r).
    unfold store_update. destruct (decide (r = r0)) as [-> | Hne].
    + rewrite (decide_True (P := r0 ∈ r0 :: ids)) by (by left).
      destruct (decide (r0 ∈ ids)); [apply resolved_column_idem | done].
    + destruct (decide (r ∈ ids)) as [Hin | Hnotin].
      * by rewrite decide_True by (by right).
      * rewrite decide_False; [done |]. by intros [? | ?]%elem_of_cons.
Qed.

(** The loop fails as soon as it comes to a dict that cannot be updated. *)
Lemma resolve_dicts_unresolvable ids : ∀ s r,
  r ∈ ids → ¬ resolvable (s r) → resolve_dicts s ids = None.
Proof.
  induction ids as [|r0 ids IH]; intros s r Hin Hbad; [by apply elem_of_nil in Hin |].
  cbn [resolve_dicts].
  destruct (resolve_foreign_key (s r0)) as [c|] eqn:Hc; [| done].
  apply resolve_foreign_key_Some in Hc as [Hok ->]. cbn [mbind option_bind].
  destruct (decide (r = r0)) as [-> | Hne]; [by destruct (Hbad Hok) |].
  apply elem_of_cons in Hin as [-> | Hin]; [done |].
  apply (IH _ r Hin). unfold store_update. by rewrite decide_False.
Qed.

(** Two stores that hold the same in the dicts of interest are treated
    alike. *)
Lemma resolve_dicts_ext (P : dict_ref → Prop) ids : ∀ s1 s2,
  (∀ r, P r → s1 r = s2 r) →
  (∀ r, r ∈ ids → P r) →
  option_Forall2 (λ a b, ∀ r, P r → a r = b r)
    (resolve_dicts s1 ids) (resolve_dicts s2 ids).
Proof.
  induction ids as [|r0 ids IH]; intros s1 s2 Hagree Hids.
  - by constructor.
  - cbn [resolve_dicts]. rewrite <- (Hagree r0) by (apply Hids; by left).
    destruct (resolve_foreign_key (s1 r0)) as [c|]; [| constructor].
    cbn [mbind option_bind]. apply IH.
    + intros r Hr. unfold store_update. destruct (decide (r = r0)); [done | by apply Hagree].
    + intros r Hr. apply Hids. by right.
Qed.

End Store.

(** *** The text of the blocks *)

Section BlockText.

Implicit Types (m : gmap string (list string)) (i : Inspector) (c : Column).







End BlockText.

(** *** Runs over the same schema *)

Section Determinism.

Implicit Types (m : gmap string (list string)) (i : Inspector).

Lemma is_association_table_ext t fks i1 i2 :
  get_pk_constraint i1 t = get_pk_constraint i2 t →
  is_association_table t fks i1 = is_association_table t fks i2.
Proof. intros Hpk. unfold is_association_table. by rewrite Hpk. Qed.

Lemma m2m_step_ext i1 i2 m t :
  get_pk_constraint i1 t = get_pk_constraint i2 t →
  get_foreign_keys i1 t = get_foreign_keys i2 t →
  m2m_step i1 m t = m2m_step i2 m t.
Proof.
  intros Hpk Hfk. unfold m2m_step.
  by rewrite Hfk, (is_association_table_ext t _ i1 i2 Hpk).
Qed.

Lemma m2m_loop_ext i1 i2 tables : ∀ m,
  (∀ t, t ∈ tables →
     get_pk_constraint i1 t = get_pk_constraint i2 t ∧
     get_foreign_keys i1 t = get_foreign_keys i2 t) →
  m2m_loop i1 m tables = m2m_loop i2 m tables.
Proof.
  induction tables as [|t rest IH]; intros m Hagree; [done |].
  destruct (Hagree t) as [Hpk Hfk]; [by left |].
  cbn [m2m_loop]. rewrite (m2m_step_ext i1 i2 m t Hpk Hfk).
  destruct (m2m_step i2 m t) as [m1|]; [| done]. cbn. apply IH.
  intros t' Ht'. apply Hagree. by right.
Qed.

Lemma generate_relationships_ext i1 i2 t :
  get_pk_constraint i1 t = get_pk_constraint i2 t →
  get_foreign_keys i1 t = get_foreign_keys i2 t →
  generate_relationships t i1 = generate_relationships t i2.
Proof.
  intros Hpk Hfk. unfold generate_relationships.
  rewrite Hfk, (is_association_table_ext t _ i1 i2 Hpk).
  destruct (is_association_table _ _ _); [done |].
  f_equal. unfold relation_of_fk. by rewrite Hpk.
Qed.

Lemma table_block_ext i1 i2 m t columns :
  get_pk_constraint i1 t = get_pk_constraint i2 t →
  get_foreign_keys i1 t = get_foreign_keys i2 t →
  table_block i1 m t columns = table_block i2 m t columns.
Proof.
  intros Hpk Hfk. unfold table_block.
  by rewrite Hfk, (is_association_table_ext t _ i1 i2 Hpk),
    (generate_relationships_ext i1 i2 t Hpk Hfk).
Qed.



Lemma agree_on_refl tables i : agree_on tables i i.
Proof. by intros t _. Qed.

Lemma emit_tables_ext m tables : ∀ all output i1 i2,
  tables ⊆ all →
  agree_on all i1 i2 →
  fst <$> emit_tables m (output, i1) tables = fst <$> emit_tables m (output, i2) tables.
Proof.
  induction tables as [|t rest IH]; intros all output i1 i2 Hsub Hagree; [done |].
  assert (t ∈ all) as Ht by (apply Hsub; by left).
  destruct (Hagree t Ht) as (Hids & Hpk & Hfk & Hstore).
  cbn [emit_tables emit_table]. rewrite <- Hids.
  destruct (resolve_dicts_ext (in_tables all i1) (column_dicts i1 t)
              (dict_store i1) (dict_store i2)) as [s1 s2 Hs |].
  { intros r (t' & Ht' & Hr). by apply (Hagree t' Ht'). }
  { intros r Hr. by exists t. }
  2: reflexivity.
  cbn [mbind option_bind].
  assert (get_columns (with_store i1 s1) t = get_columns (with_store i2 s2) t) as Hcols.
  { unfold get_columns. cbn [with_store column_dicts dict_store]. rewrite <- Hids.
    apply list_fmap_ext. intros k r Hr. apply Hs. exists t. split; [done |].
    by apply list_elem_of_lookup_2 in Hr. }
  rewrite Hcols.
  rewrite (table_block_ext (with_store i1 s1) (with_store i2 s2) m t _ Hpk Hfk).
  destruct (table_block (with_store i2 s2) m t _) as [block|]; [| reflexivity].
  cbn [mbind option_bind]. apply (IH all).
  - intros x Hx. apply Hsub. by right.
  - intros t' Ht'. destruct (Hagree t' Ht') as (Hids' & Hpk' & Hfk' & _).
    cbn [with_store column_dicts dict_store get_pk_constraint get_foreign_keys].
    split; [done |]. split; [done |]. split; [done |].
    intros r Hr. apply Hs. by exists t'.
Qed.

(** What a run leaves behind: the tables, the keys and the dict objects as
    they were, the dicts it went through updated, the others untouched. *)
Lemma emit_tables_store m tables : ∀ output i output' i',
  emit_tables m (output, i) tables = Some (output', i') →
  get_table_names i' = get_table_names i ∧
  column_dicts i' = column_dicts i ∧
  get_pk_constraint i' = get_pk_constraint i ∧
  get_foreign_keys i' = get_foreign_keys i ∧
  ∀ r, dict_store i' r =
       if decide (r ∈ (t ← tables; column_dicts i t))
       then resolved_column (dict_store i r) else dict_store i r.
Proof.
  induction tables as [|t0 rest IH]; intros output i output' i' Hrun.
  - injection Hrun as <- <-. repeat split.
  - cbn [emit_tables emit_table] in Hrun.
    destruct (resolve_dicts (dict_store i) (column_dicts i t0)) as [s1|] eqn:Hres;
      [| discriminate Hrun].
    cbn [mbind option_bind] in Hrun.
    destruct (table_block _ m t0 _) as [block|]; [| discriminate Hrun].
    cbn [mbind option_bind] in Hrun.
    destruct (IH _ _ _ _ Hrun) as (Hnames & Hids & Hpk & Hfk & Hstore).
    split; [exact Hnames |]. split; [exact Hids |]. split; [exact Hpk |].
    split; [exact Hfk |]. intros r. rewrite (Hstore r).
    cbn [with_store column_dicts dict_store]. rewrite (resolve_dicts_spec _ _ _ Hres r).
    rewrite bind_cons.
    destruct (decide (r ∈ column_dicts i t0)) as [H0 | H0];
      destruct (decide (r ∈ rest ≫= column_dicts i)) as [H1 | H1].
    + rewrite decide_True by (apply elem_of_app; by left). apply resolved_column_idem.
    + by rewrite decide_True by (apply elem_of_app; by left).
    + by rewrite decide_True by (apply elem_of_app; by right).
    + rewrite decide_False; [done |]. by intros [? | ?]%elem_of_app.
Qed.


Lemma generate_models_content_ext i1 i2 :
  same_schema i1 i2 →
  fst <$> generate_models_content i1 = fst <$> generate_models_content i2.
Proof.
  intros [Hnames Hagree].
  unfold generate_models_content, generate_many_to_many_relationships.
  rewrite <- Hnames, (m2m_loop_ext i1 i2 _ ∅).
  2:{ intros t Ht. destruct (Hagree t Ht) as (_ & Hpk & Hfk & _). by split. }
  destruct (m2m_loop i2 ∅ (get_table_names i1)) as [m|]; [| reflexivity].
  cbn [mbind option_bind].
  by apply (emit_tables_ext m _ (get_table_names i1)).
Qed.



(** Without foreign-key entries a run leaves the column dicts as they were,
    and a second run over them gives the same text. *)
Lemma generate_models_content_rerun i output i' :
  no_fk_entries i →
  generate_models_content i = Some (output, i') →
  fst <$> generate_models_content i' = Some output.
Proof.
  intros Hfalsy Hrun.
  assert (same_schema i i') as Hsame.
  { unfold generate_models_content in Hrun.
    destruct (generate_many_to_many_relationships i) as [m|]; [| discriminate Hrun].
    cbn [mbind option_bind] in Hrun.
    destruct (emit_tables_store m _ _ _ _ _ Hrun) as (Hnames & Hids & Hpk & Hfk & Hstore).
    split; [done |]. intros t Ht. rewrite Hids, Hpk, Hfk.
    split; [done |]. split; [done |]. split; [done |].
    intros r Hr. rewrite (Hstore r). destruct (decide _); [| done].
    symmetry. apply resolved_column_falsy, (Hfalsy t); [done |].
    unfold get_columns. by apply list_elem_of_fmap_2. }
  by rewrite <- (generate_models_content_ext i i' Hsame), Hrun.
Qed.

End Determinism.



(** The run on the test database, as the test suite checks it. *)
Example test_generate_models_content :
  (λ out, PyStr.startswith preamble out.1
          && PyStr.contains "class Users(Base):" out.1
          && PyStr.contains "class Posts(Base):" out.1
          && PyStr.contains "class Tags(Base):" out.1
          && PyStr.contains "post_tags = Table(" out.1)
    <$> generate_models_content TestDb.inspector = Some true.
Proof. vm_compute. reflexivity. Qed.

(** The whole text for two tables, line by line. *)
Example generate_models_content_users_posts :
  fst <$> generate_models_content WithFkObjects.inspector =
  Some (preamble_text +:+ PyStr.join ((λ line, line +:+ PyStr.nl) <$>
    [ "class Users(Base):";
      "    __tablename__ = 'users'";
      "";
      "    id = Column(Integer, nullable=False, primary_key=True)";
      ""; ""; ""; "";
      "class Posts(Base):";
      "    __tablename__ = 'posts'";
      "";
      "    id = Column(Integer, nullable=False, primary_key=True)";
      "    user_id = Column(Integer, ForeignKey('users.id'))";
      "";
      "    users = relationship('Users')";
      ""; ""; "" ])).
Proof. vm_compute. reflexivity. Qed.

(** The first run rewrites the column dict of [user_id]. *)
Example first_run_updates_columns :
  (λ r, get_columns r.2 "posts") <$> generate_models_content WithFkObjects.inspector =
  Some [TestDb.col "id" "INTEGER" false true None;
        TestDb.col "user_id" "INTEGER" true false (Some (FkString "users.id"))].
Proof. vm_compute. reflexivity. Qed.

(** A run over the column dicts the first run left fails. *)
Example second_run_on_updated_columns :
  (r ← generate_models_content WithFkObjects.inspector; generate_models_content r.2) = None.
Proof. vm_compute. reflexivity. Qed.

(** When the inspector returns the same dicts for two tables, the dicts are
    updated for the first table and found updated for the second: the run
    fails on a schema it would go through with dicts of their own. *)
Example shared_column_dicts_fail :
  generate_models_content SharedDicts.inspector = None.
Proof. vm_compute. reflexivity. Qed.
(** * Further properties of the code *)

(** ** The type mapper, category by category *)

(** X1. The category of a type string, told by the keys that occur in its
    lower-cased form: Integer exactly when one of the integer keys occurs;
    Float exactly when a float key occurs and no integer key, "varchar" or
    "text" does; DateTime exactly when a date key occurs and none of the
    eight keys before them does.  Every other string is a String. *)
Theorem get_column_type_categories (col : Column) :
  let t := PyStr.lower (col_type col) in
  let has k := PyStr.occurs_in k t in
  let integer_key := has "integer" ∨ has "bigint" ∨ has "smallint" in
  let string_key := has "varchar" ∨ has "text" in
  let float_key := has "float" ∨ has "real" ∨ has "numeric" in
  let date_key := has "datetime" ∨ has "timestamp" ∨ has "date" in
  (get_column_type col = Integer ↔ integer_key) ∧
  (get_column_type col = Float ↔ ¬ integer_key ∧ ¬ string_key ∧ float_key) ∧
  (get_column_type col = DateTime ↔
     ¬ integer_key ∧ ¬ string_key ∧ ¬ float_key ∧ date_key) ∧
  (get_column_type col = SaString ↔
     ¬ integer_key ∧ (string_key ∨ (¬ float_key ∧ ¬ date_key))).
Proof.
  cbn zeta. rewrite <- !contains_spec.
  unfold get_column_type, type_map. cbn [scan_type_map].
  repeat match goal with
         | |- context [if PyStr.contains ?k ?t then _ else _] =>
             destruct (PyStr.contains k t)
         end;
    repeat split; intros; try discriminate; try tauto;
    intuition discriminate.
Qed.

(** X2. Whatever the column, the type name written for it is one of the
    names the first line of the preamble imports. *)
Theorem emitted_type_is_imported (col : Column) :
  PyStr.occurs_in (" " +:+ type_name (get_column_type col) +:+ ",")
    "from sqlalchemy import Column, Integer, String, Float, DateTime, ForeignKey, Table" ∧
  PyStr.startswith
    "from sqlalchemy import Column, Integer, String, Float, DateTime, ForeignKey, Table"
    preamble = true.
Proof.
  split; [| reflexivity].
  apply contains_spec. by destruct (get_column_type col).
Qed.

(** ** The identifier normalizer as a function of the words of a name *)

Section Normalize.

Local Ltac bits c :=
  destruct c as [[] [] [] [] [] [] [] []]; vm_compute; try reflexivity;
  try discriminate; auto.

Lemma is_cased_char_upper c : PyStr.is_cased (PyStr.char_upper c) = PyStr.is_cased c.
Proof. bits c. Qed.

Lemma is_cased_char_lower c : PyStr.is_cased (PyStr.char_lower c) = PyStr.is_cased c.
Proof. bits c. Qed.

Lemma char_lower_idem c : PyStr.char_lower (PyStr.char_lower c) = PyStr.char_lower c.
Proof. bits c. Qed.

Lemma char_upper_lower c : PyStr.char_upper (PyStr.char_lower c) = PyStr.char_upper c.
Proof. bits c. Qed.

Lemma space_not_cased c : Ascii.eqb c " " = true → PyStr.is_cased c = false.
Proof. bits c. Qed.

Lemma char_upper_fixed_not_lower c : PyStr.char_upper c = c → PyStr.islower c = false.
Proof. bits c. Qed.

Lemma is_blank_sep_or_space c :
  is_blank c = true → PyStr.is_sep c = true ∨ (PyStr.is_sep c = false ∧ c = " "%char).
Proof. bits c. Qed.

Lemma cased_space (b : bool) :
  (if b then PyStr.char_lower " " else PyStr.char_upper " ") = " "%char.
Proof. by destruct b. Qed.

(** [camel_case] through the normal form: the first character of a
    non-empty normal form is upper-cased. *)
Lemma camel_case_normalize s :
  camel_case s =
  match normalize_from false false s with
  | EmptyString => None
  | String c rest => Some (String (PyStr.char_upper c) rest)
  end.
Proof.
  unfold camel_case, normalize_from, PyStr.title.
  destruct (PyStr.remove_spaces _) as [|c rest]; [done |].
  cbn [PyStr.join]. by rewrite sapp_cons, sapp_nil_l, sapp_nil_r.
Qed.

(** A scan that starts inside a run emits no space for the rest of the
    run; the space is removed in the end anyway. *)
Lemma normalize_from_in_run s :
  normalize_from true false s = normalize_from false false s.
Proof.
  unfold normalize_from. destruct s as [|c s]; [done |].
  cbn [PyStr.sub_sep_runs]. destruct (PyStr.is_sep c); [| done].
  cbn [PyStr.title_from PyStr.remove_spaces]. by rewrite (cased_space false).
Qed.

(** The first character of a normal form that was scanned from an uncased
    position is already upper-cased. *)
Lemma normalize_from_head s : ∀ in_run c rest,
  normalize_from in_run false s = String c rest → PyStr.char_upper c = c.
Proof.
  unfold normalize_from.
  induction s as [|c0 s IH]; intros in_run c rest; [done |].
  cbn [PyStr.sub_sep_runs]. destruct (PyStr.is_sep c0).
  - destruct in_run; [apply IH |].
    cbn [PyStr.title_from PyStr.remove_spaces]. rewrite (cased_space false).
    cbn. apply IH.
  - cbn [PyStr.title_from PyStr.remove_spaces].
    destruct (Ascii.eqb (PyStr.char_upper c0) " ") eqn:Hsp.
    + assert (PyStr.is_cased c0 = false) as ->.
      { rewrite <- is_cased_char_upper. by apply space_not_cased. }
      apply IH.
    + intros H. injection H as <- _. apply char_upper_idem.
Qed.

(** So the upper-casing of the first character changes nothing (on the
    ASCII range modelled here). *)
Lemma camel_case_Some s r :
  camel_case s = Some r ↔ normalize_from false false s = r ∧ r ≠ "".
Proof.
  rewrite camel_case_normalize.
  destruct (normalize_from false false s) as [|c rest] eqn:Hnorm.
  - split; [done | by intros [<- ?]].
  - rewrite (normalize_from_head s false c rest Hnorm). split.
    + by intros [= <-].
    + by intros [<- _].
Qed.

(** The normal form of two parts joined by a separator or a space is the
    two normal forms put together. *)
Lemma normalize_from_app_sep a sep b : ∀ in_run previous_is_cased,
  (in_run = true → previous_is_cased = false) →
  is_blank sep = true →
  normalize_from in_run previous_is_cased (a +:+ String sep b) =
  normalize_from in_run previous_is_cased a +:+ normalize_from false false b.
Proof.
  induction a as [|c a IH]; intros in_run p Hinv Hsep.
  - rewrite sapp_nil_l. unfold normalize_from at 1 2.
    cbn [PyStr.sub_sep_runs PyStr.title_from PyStr.remove_spaces].
    rewrite sapp_nil_l.
    destruct (is_blank_sep_or_space sep Hsep) as [-> | [-> ->]].
    + destruct in_run.
      * rewrite (Hinv eq_refl). apply normalize_from_in_run.
      * cbn [PyStr.title_from PyStr.remove_spaces]. rewrite cased_space.
        cbn. apply normalize_from_in_run.
    + cbn [PyStr.title_from PyStr.remove_spaces]. rewrite cased_space.
      by cbn.
  - rewrite sapp_cons. unfold normalize_from at 1 2.
    cbn [PyStr.sub_sep_runs]. destruct (PyStr.is_sep c).
    + destruct in_run.
      * by apply (IH true p).
      * cbn [PyStr.title_from PyStr.remove_spaces]. rewrite cased_space.
        cbn. by apply (IH true false).
    + cbn [PyStr.title_from PyStr.remove_spaces].
      destruct (Ascii.eqb _ " ").
      * by apply (IH false).
      * rewrite sapp_cons. f_equal. by apply (IH false).
Qed.

Lemma sforall_app p a b :
  PyStr.sforall p (a +:+ b) = PyStr.sforall p a && PyStr.sforall p b.
Proof.
  induction a as [|c a IH]; [done |].
  rewrite sapp_cons. cbn [PyStr.sforall]. by rewrite IH, andb_assoc.
Qed.

Lemma normalize_from_not_blank s :
  PyStr.sforall not_blank (normalize_from false false s) = true.
Proof. apply normalized_not_blank. Qed.

Lemma sub_sep_runs_lower s : ∀ in_run,
  PyStr.sub_sep_runs in_run (PyStr.lower s) =
  PyStr.lower (PyStr.sub_sep_runs in_run s).
Proof.
  induction s as [|c s IH]; intros in_run; [done |].
  cbn [PyStr.lower PyStr.smap PyStr.sub_sep_runs].
  rewrite is_sep_char_lower. fold (PyStr.lower s).
  destruct (PyStr.is_sep c).
  - destruct in_run; rewrite IH; [done |]. reflexivity.
  - by rewrite IH.
Qed.

Lemma title_from_lower s : ∀ previous_is_cased,
  PyStr.title_from previous_is_cased (PyStr.lower s) =
  PyStr.title_from previous_is_cased s.
Proof.
  induction s as [|c s IH]; intros p; [done |].
  cbn [PyStr.lower PyStr.smap PyStr.title_from]. fold (PyStr.lower s).
  rewrite is_cased_char_lower, IH.
  by destruct p; rewrite ?char_lower_idem, ?char_upper_lower.
Qed.

Lemma title_from_idem s : ∀ previous_is_cased,
  PyStr.title_from previous_is_cased (PyStr.title_from previous_is_cased s) =
  PyStr.title_from previous_is_cased s.
Proof.
  induction s as [|c s IH]; intros p; [done |].
  cbn [PyStr.title_from].
  assert (PyStr.is_cased (if p then PyStr.char_lower c else PyStr.char_upper c)
          = PyStr.is_cased c) as ->
    by (by destruct p; rewrite ?is_cased_char_lower, ?is_cased_char_upper).
  rewrite IH.
  by destruct p; rewrite ?char_lower_idem, ?char_upper_idem.
Qed.

Lemma title_not_empty s : s ≠ "" → PyStr.title s ≠ "".
Proof. by destruct s. Qed.

End Normalize.

(** X3. For a name on the ASCII range, the class name [camel_case] returns
    is not empty, has no underscore, hyphen or space in it, and does not
    start with a small letter. *)
Theorem camel_case_result_shape (s r : string) :
  is_ascii_name s = true →
  camel_case s = Some r →
  PyStr.sforall not_blank r = true ∧
  ∃ c rest, r = String c rest ∧ PyStr.islower c = false.
Proof.
  intros _ [Hnorm Hne]%camel_case_Some. split.
  - rewrite <- Hnorm. apply normalize_from_not_blank.
  - destruct r as [|c rest]; [done |]. exists c, rest. split; [done |].
    apply char_upper_fixed_not_lower, (normalize_from_head s false c rest Hnorm).
Qed.

Lemma camel_case_result_shape_witness :
  PyStr.sforall not_blank "UserProfile" = true ∧
  ∃ c rest, "UserProfile" = String c rest ∧ PyStr.islower c = false.
Proof. apply (camel_case_result_shape "user_profile" "UserProfile"); reflexivity. Defined.

(** X4. For names on the ASCII range, the class name of two parts joined
    by an underscore, a hyphen or a space is the class name of the first part
    followed by the class name of the second. *)
Theorem camel_case_app_sep (a b ra rb : string) (sep : ascii) :
  is_ascii_name a = true →
  is_ascii_name b = true →
  is_blank sep = true →
  camel_case a = Some ra →
  camel_case b = Some rb →
  camel_case (a +:+ String sep b) = Some (ra +:+ rb).
Proof.
  intros _ _ Hsep [Ha Hane]%camel_case_Some [Hb Hbne]%camel_case_Some.
  apply camel_case_Some. split.
  - by rewrite normalize_from_app_sep, Ha, Hb.
  - destruct ra; [done |]. by rewrite sapp_cons.
Qed.

Lemma camel_case_app_sep_witness :
  camel_case ("user" +:+ String "_" "profile") = Some ("User" +:+ "Profile").
Proof.
  apply (camel_case_app_sep "user" "profile" "User" "Profile" "_"); reflexivity.
Defined.

(** X5. Separators carry no information beyond splitting the name: one in
    front or at the end is ignored, a run of them counts as one, and which
    of underscore, hyphen and space is used makes no difference.  Names that
    differ only in this way get the same class name (or both fail). *)
Theorem camel_case_separators (a b : string) (sep sep' : ascii) :
  is_blank sep = true →
  is_blank sep' = true →
  camel_case (String sep b) = camel_case b ∧
  camel_case (a +:+ String sep "") = camel_case a ∧
  camel_case (a +:+ String sep (String sep' b)) = camel_case (a +:+ String sep b) ∧
  camel_case (a +:+ String sep b) = camel_case (a +:+ String sep' b).
Proof.
  intros Hsep Hsep'. rewrite !camel_case_normalize.
  pose proof (normalize_from_app_sep "" sep b false false (λ H, eq_refl) Hsep) as H1.
  rewrite sapp_nil_l in H1.
  assert (normalize_from false false "" = "") as Hnil by reflexivity.
  rewrite Hnil, sapp_nil_l in H1.
  pose proof (normalize_from_app_sep "" sep' b false false (λ H, eq_refl) Hsep') as H1'.
  rewrite sapp_nil_l, Hnil, sapp_nil_l in H1'.
  repeat split.
  - by rewrite H1.
  - by rewrite normalize_from_app_sep, Hnil, sapp_nil_r.
  - by rewrite !normalize_from_app_sep, H1'.
  - by rewrite !normalize_from_app_sep.
Qed.

Lemma camel_case_separators_witness :
  camel_case (String "_" "key") = camel_case "key" ∧
  camel_case ("api" +:+ String "_" "") = camel_case "api" ∧
  camel_case ("api" +:+ String "_" (String "-" "key")) =
    camel_case ("api" +:+ String "_" "key") ∧
  camel_case ("api" +:+ String "_" "key") = camel_case ("api" +:+ String "-" "key").
Proof. apply (camel_case_separators "api" "key" "_" "-"); reflexivity. Defined.

(** X6. For a name on the ASCII range, the class name does not depend on
    the case of the letters: the name and its lower-cased form get the same
    class name. *)
Theorem camel_case_ignores_case (s : string) :
  is_ascii_name s = true →
  camel_case (PyStr.lower s) = camel_case s.
Proof.
  intros _. unfold camel_case, PyStr.title.
  by rewrite sub_sep_runs_lower, title_from_lower.
Qed.

Lemma camel_case_ignores_case_witness :
  camel_case (PyStr.lower "API_key") = camel_case "API_key".
Proof. apply (camel_case_ignores_case "API_key"). reflexivity. Defined.

(** X7. On the ASCII range, [camel_case] does not always return its own
    result unchanged ("user_profile" gives "UserProfile", which gives
    "Userprofile"), but it does so from the second application on: applied to
    a class name it returned, it succeeds, and what it returns then is a
    fixed point. *)
Theorem camel_case_stable_after_two (s r : string) :
  is_ascii_name s = true →
  camel_case s = Some r →
  (∃ r', camel_case r = Some r' ∧ camel_case r' = Some r') ∧
  (∃ s0 r0, is_ascii_name s0 = true ∧ camel_case s0 = Some r0 ∧
            camel_case r0 ≠ Some r0).
Proof.
  intros _ [Hnorm Hne]%camel_case_Some. split.
  - assert (PyStr.sforall not_blank r = true) as Hclean
      by (rewrite <- Hnorm; apply normalize_from_not_blank).
    exists (PyStr.title r).
    assert (PyStr.sforall not_blank (PyStr.title r) = true) as Hclean'
      by (unfold PyStr.title; by rewrite sforall_not_blank_title).
    split.
    + apply camel_case_Some. split; [| by apply title_not_empty].
      unfold normalize_from.
      rewrite (sub_sep_runs_not_blank_id false r Hclean).
      by apply remove_spaces_not_blank_id.
    + apply camel_case_fixed_points. split; [by apply title_not_empty |].
      split; [done |]. apply title_from_idem.
  - exists "user_profile", "UserProfile". repeat split. discriminate.
Qed.

Lemma camel_case_stable_after_two_witness :
  (∃ r', camel_case "UserProfile" = Some r' ∧ camel_case r' = Some r') ∧
  (∃ s0 r0, is_ascii_name s0 = true ∧ camel_case s0 = Some r0 ∧
            camel_case r0 ≠ Some r0).
Proof.
  apply (camel_case_stable_after_two "user_profile" "UserProfile"); reflexivity.
Defined.

(** ** The classifier and the per-table pass: order, failures, duplicates *)

Lemma camel_case_is_Some s : is_Some (camel_case s) ↔ has_word s.
Proof.
  unfold has_word.
  rewrite <- not_true_iff_false, <- camel_case_None, <- not_eq_None_Some.
  reflexivity.
Qed.

(** X8. The classification looks at the foreign keys and at the primary-key
    columns as sets: listing the foreign keys in another order, or the
    primary-key columns in another order or more than once, does not change
    it. *)
Theorem is_association_table_order (table_name : string) (fks fks' : list ForeignKey)
    (i i' : Inspector) :
  fks ≡ₚ fks' →
  (∀ c, c ∈ get_pk_constraint i table_name ↔ c ∈ get_pk_constraint i' table_name) →
  is_association_table table_name fks i = is_association_table table_name fks' i'.
Proof.
  intros Hperm Hpk. apply eq_true_iff_eq.
  rewrite !is_association_table_spec, (Permutation_length Hperm).
  unfold pk_covered_exactly. split; intros [Hlen Hcov]; (split; [done |]); intros c.
  - rewrite <- Hpk, Hcov. by setoid_rewrite Hperm.
  - rewrite Hpk, Hcov. by setoid_rewrite Hperm.
Qed.

Lemma is_association_table_order_witness :
  is_association_table "post_tags"
    [TestDb.fkey "post_id" "posts" "id"; TestDb.fkey "tag_id" "tags" "id"]
    TestDb.inspector =
  is_association_table "post_tags"
    [TestDb.fkey "tag_id" "tags" "id"; TestDb.fkey "post_id" "posts" "id"]
    TestDb.inspector.
Proof.
  apply (is_association_table_order "post_tags").
  - apply perm_swap.
  - reflexivity.
Defined.

Lemma relation_of_fk_is_Some table_name inspector fk :
  is_Some (relation_of_fk table_name inspector fk) ↔
  is_Some (camel_case (referred_table fk)).
Proof.
  unfold relation_of_fk. destruct (camel_case (referred_table fk)) as [cls|].
  - cbn. destruct (is_many_to_one _ _); split; by eexists.
  - cbn. split; by intros [? [=]].
Qed.

(** X9. The per-table pass fails (the [IndexError] of [camel_case]) exactly
    when the table is an entity table and one of its foreign keys refers to
    a table whose name is made of underscores, hyphens and spaces only.  On
    an association table it never fails: it returns before it looks at the
    names. *)
Theorem generate_relationships_fails_iff (table_name : string) (inspector : Inspector) :
  generate_relationships table_name inspector = None ↔
  is_association_table table_name (get_foreign_keys inspector table_name)
    inspector = false ∧
  ∃ fk, fk ∈ get_foreign_keys inspector table_name ∧
        PyStr.sforall is_blank (referred_table fk) = true.
Proof.
  unfold generate_relationships.
  destruct (is_association_table _ _ _).
  - split; [done | by intros [? _]].
  - rewrite eq_None_not_Some, mapM_is_Some, <- Exists_Forall_neg, Exists_exists
      by (intros fk; cbn; destruct (relation_of_fk table_name inspector fk);
          [left; by eexists | right; intros [? ?]; discriminate]).
    split.
    + intros (fk & Hin & Hnone). split; [done |]. exists fk. split; [done |].
      apply camel_case_None, eq_None_not_Some.
      intros Hsome. apply Hnone. by apply relation_of_fk_is_Some.
    + intros (_ & fk & Hin & Hblank). exists fk. split; [done |].
      intros Hsome%relation_of_fk_is_Some. apply camel_case_None in Hblank.
      rewrite Hblank in Hsome. by destruct Hsome.
Qed.

(** X10. The relation written for a foreign key names the referred table
    only, not the constrained column.  Two foreign keys of an entity table
    that refer to the same table, each through one column outside the
    primary key, therefore give the same line twice. *)
Theorem generate_relationships_same_parent (table_name : string) (inspector : Inspector)
    (relations : list string) (a b : nat) (fk fk' : ForeignKey) (c c' : string) :
  generate_relationships table_name inspector = Some relations →
  is_association_table table_name (get_foreign_keys inspector table_name)
    inspector = false →
  get_foreign_keys inspector table_name !! a = Some fk →
  get_foreign_keys inspector table_name !! b = Some fk' →
  referred_table fk = referred_table fk' →
  constrained_columns fk = [c] → c ∉ get_pk_constraint inspector table_name →
  constrained_columns fk' = [c'] → c' ∉ get_pk_constraint inspector table_name →
  ∃ rel, relations !! a = Some rel ∧ relations !! b = Some rel.
Proof.
  unfold generate_relationships. intros Hgen Hentity Ha Hb Href Hc Hcpk Hc' Hcpk'.
  rewrite Hentity in Hgen. apply mapM_Some in Hgen.
  destruct (Forall2_lookup_l _ _ _ a fk Hgen Ha) as (rel & Hra & Hrel).
  destruct (Forall2_lookup_l _ _ _ b fk' Hgen Hb) as (rel' & Hrb & Hrel').
  exists rel. split; [done |]. rewrite Hrb. f_equal.
  unfold relation_of_fk in Hrel, Hrel'. rewrite Href in Hrel.
  destruct (camel_case (referred_table fk')) as [cls|]; [| discriminate Hrel].
  cbn [mbind option_bind] in Hrel, Hrel'.
  rewrite Hc in Hrel. rewrite Hc' in Hrel'. unfold is_many_to_one in Hrel, Hrel'.
  cbn [length] in Hrel, Hrel'.
  rewrite !bool_decide_eq_true_2 in Hrel, Hrel' by done.
  cbn [andb] in Hrel, Hrel'. congruence.
Qed.

Lemma generate_relationships_same_parent_witness :
  ∃ rel, ["users = relationship('Users')"; "users = relationship('Users')"] !! 0
           = Some rel ∧
         ["users = relationship('Users')"; "users = relationship('Users')"] !! 1
           = Some rel.
Proof.
  apply (generate_relationships_same_parent "posts" TwoParents.inspector
           ["users = relationship('Users')"; "users = relationship('Users')"] 0 1
           (TestDb.fkey "author_id" "users" "id") (TestDb.fkey "editor_id" "users" "id")
           "author_id" "editor_id").
  - vm_compute. reflexivity.
  - vm_compute. reflexivity.
  - reflexivity.
  - reflexivity.
  - reflexivity.
  - reflexivity.
  - apply (bool_decide_unpack _). vm_compute. exact I.
  - reflexivity.
  - apply (bool_decide_unpack _). vm_compute. exact I.
Defined.

(** ** The many-to-many pass: failures, keys, self-reference *)

Section ManyToManyMore.

Implicit Types (m : gmap string (list string)) (inspector : Inspector).

Lemma m2m_step_ok inspector m table m' :
  m2m_step inspector m table = Some m' → m2m_table_ok inspector table.
Proof.
  unfold m2m_step, m2m_table_ok. intros Hstep Hassoc. rewrite Hassoc in Hstep.
  destruct (is_association_table_two _ _ _ Hassoc) as (fk0 & fk1 & Hfks).
  rewrite Hfks in Hstep |- *. cbn [lookup list_lookup mbind option_bind] in Hstep.
  destruct (camel_case (referred_table fk0)) as [class1|] eqn:H1; [| discriminate Hstep].
  destruct (camel_case (referred_table fk1)) as [class2|] eqn:H2; [| discriminate Hstep].
  repeat constructor; by eexists.
Qed.

Lemma m2m_loop_ok inspector tables : ∀ m m',
  m2m_loop inspector m tables = Some m' → m2m_names_ok inspector tables.
Proof.
  induction tables as [|table rest IH]; intros m m' Hloop; [constructor |].
  cbn in Hloop.
  destruct (m2m_step inspector m table) as [m1|] eqn:Hstep; [| discriminate Hloop].
  constructor; [by apply (m2m_step_ok _ _ _ _ Hstep) | by apply (IH m1 m')].
Qed.

Lemma setdefault_nil_is_Some t m k :
  is_Some (setdefault_nil t m !! k) ↔ is_Some (m !! k) ∨ k = t.
Proof.
  unfold setdefault_nil. destruct (m !! t) eqn:Ht.
  - split; [by left |]. intros [? | ->]; [done | by rewrite Ht].
  - destruct (decide (t = k)) as [-> | Hne].
    + rewrite lookup_insert_eq. split; [by right | by eexists].
    + rewrite lookup_insert_ne by done. split; [by left |].
      by intros [? | ->].
Qed.

Lemma append_at_is_Some t rel m k :
  is_Some (append_at t rel m !! k) ↔ is_Some (m !! k).
Proof.
  unfold append_at. destruct (decide (t = k)) as [-> | Hne].
  - rewrite lookup_alter_eq. by rewrite fmap_is_Some.
  - by rewrite lookup_alter_ne.
Qed.

Lemma m2m_step_keys inspector m table m' :
  m2m_step inspector m table = Some m' →
  ∀ k, is_Some (m' !! k) ↔ is_Some (m !! k) ∨ m2m_refers inspector table k.
Proof.
  unfold m2m_step, m2m_refers. intros Hstep k.
  destruct (is_association_table _ _ _) eqn:Hassoc.
  - destruct (is_association_table_two _ _ _ Hassoc) as (fk0 & fk1 & Hfks).
    rewrite Hfks in Hstep |- *. cbn [lookup list_lookup mbind option_bind] in Hstep.
    destruct (camel_case (referred_table fk0)) as [class1|]; [| discriminate Hstep].
    destruct (camel_case (referred_table fk1)) as [class2|]; [| discriminate Hstep].
    cbn [mbind option_bind] in Hstep. injection Hstep as <-.
    rewrite !append_at_is_Some, !setdefault_nil_is_Some. split.
    + intros [[? | ->] | ->]; [by left | right | right].
      * split; [done |]. exists fk0. split; [by left | done].
      * split; [done |]. exists fk1. split; [right; by left | done].
    + intros [? | (_ & fk & Hin & <-)]; [by left; left |].
      apply elem_of_cons in Hin as [-> | Hin]; [left; by right |].
      apply list_elem_of_singleton in Hin as ->. by right.
  - injection Hstep as <-. split; [by left |]. by intros [? | [[=] _]].
Qed.

Lemma m2m_loop_keys inspector tables : ∀ m m',
  m2m_loop inspector m tables = Some m' →
  ∀ k, is_Some (m' !! k) ↔
       is_Some (m !! k) ∨ ∃ table, table ∈ tables ∧ m2m_refers inspector table k.
Proof.
  induction tables as [|table rest IH]; intros m m' Hloop k; cbn in Hloop.
  - injection Hloop as <-. split; [by left |].
    intros [? | (t & Hin & _)]; [done | by apply elem_of_nil in Hin].
  - destruct (m2m_step inspector m table) as [m1|] eqn:Hstep; [| discriminate Hloop].
    cbn in Hloop. rewrite (IH m1 m' Hloop k), (m2m_step_keys _ _ _ _ Hstep k).
    split.
    + intros [[? | Href] | (t & Hin & Href)]; [by left | right | right].
      * exists table. split; [by left | done].
      * exists t. split; [by right | done].
    + intros [? | (t & Hin & Href)]; [by left; left |].
      apply elem_of_cons in Hin as [-> | Hin]; [left; by right |].
      right. by exists t.
Qed.

Lemma m2m_declarations_nonempty inspector table k :
  m2m_table_ok inspector table →
  m2m_refers inspector table k →
  m2m_declarations inspector table k ≠ [].
Proof.
  unfold m2m_refers, m2m_declarations. intros Hok (Hassoc & fk & Hin & <-).
  specialize (Hok Hassoc). rewrite Hassoc.
  destruct (is_association_table_two _ _ _ Hassoc) as (fk0 & fk1 & Hfks).
  rewrite Hfks in Hok, Hin |- *.
  apply Forall_cons in Hok as [[class1 ->] Hok].
  apply Forall_cons in Hok as [[class2 ->] _].
  apply elem_of_cons in Hin as [-> | Hin].
  - by rewrite decide_True.
  - apply list_elem_of_singleton in Hin as ->.
    rewrite (decide_True (P := referred_table fk1 = referred_table fk1)) by done.
    by destruct (decide _).
Qed.

End ManyToManyMore.

(** X11. The many-to-many pass fails exactly when some association table
    in the list has a foreign key to a table whose name [camel_case] does not
    accept; the names referred to by entity tables play no part in it. *)
Theorem generate_many_to_many_relationships_succeeds_iff (inspector : Inspector) :
  is_Some (generate_many_to_many_relationships inspector) ↔
  ∀ table fk,
    table ∈ get_table_names inspector →
    is_association_table table (get_foreign_keys inspector table) inspector = true →
    fk ∈ get_foreign_keys inspector table →
    has_word (referred_table fk).
Proof.
  unfold generate_many_to_many_relationships. split.
  - intros [m Hm] table fk Hin Hassoc Hfk.
    apply m2m_loop_ok in Hm. unfold m2m_names_ok in Hm.
    rewrite Forall_forall in Hm. specialize (Hm table Hin Hassoc).
    rewrite Forall_forall in Hm. by apply camel_case_is_Some, Hm.
  - intros Hok. apply m2m_loop_total. apply Forall_forall. intros table Hin Hassoc.
    apply Forall_forall. intros fk Hfk. by apply camel_case_is_Some, (Hok table).
Qed.

(** X12. The keys of the mapping the pass returns are exactly the tables
    that some listed association table refers to, and no key holds an empty
    list: a table is a key if and only if the pass made a declaration for
    it. *)
Theorem generate_many_to_many_relationships_keys (inspector : Inspector)
    (m : gmap string (list string)) (k : string) :
  generate_many_to_many_relationships inspector = Some m →
  (is_Some (m !! k) ↔
   ∃ table fk,
     table ∈ get_table_names inspector ∧
     is_association_table table (get_foreign_keys inspector table) inspector = true ∧
     fk ∈ get_foreign_keys inspector table ∧ referred_table fk = k) ∧
  (∀ l, m !! k = Some l → l ≠ []).
Proof.
  unfold generate_many_to_many_relationships. intros Hm.
  pose proof (m2m_loop_keys _ _ _ _ Hm k) as Hkeys.
  pose proof (m2m_loop_decls _ _ _ _ Hm k) as Hdecls.
  pose proof (m2m_loop_ok _ _ _ _ Hm) as Hok.
  rewrite lookup_empty in Hkeys. split.
  - rewrite Hkeys. split.
    + intros [[? [=]] | (table & Hin & Hassoc & fk & Hfk & Href)].
      by exists table, fk.
    + intros (table & fk & Hin & Hassoc & Hfk & Href). right.
      exists table. split; [done |]. split; [done |]. by exists fk.
  - intros l Hl ->.
    assert (is_Some (m !! k)) as Hsome by (by rewrite Hl).
    apply Hkeys in Hsome as [[? [=]] | (table & Hin & Href)].
    unfold decls in Hdecls. rewrite Hl, lookup_empty in Hdecls. cbn in Hdecls.
    assert (m2m_table_ok inspector table) as Htable.
    { unfold m2m_names_ok in Hok. rewrite Forall_forall in Hok. by apply Hok. }
    pose proof (m2m_declarations_nonempty inspector table k Htable Href) as Hne.
    destruct (m2m_declarations inspector table k) as [|rel rels] eqn:Hd; [done |].
    assert (rel ∈ (t ← get_table_names inspector; m2m_declarations inspector t k))
      as Hrel.
    { apply (elem_of_bind_table _ _ table); [done |]. rewrite Hd. by left. }
    rewrite <- Hdecls in Hrel. by apply elem_of_nil in Hrel.
Qed.

Lemma generate_many_to_many_relationships_keys_witness :
  (is_Some (default ∅ (generate_many_to_many_relationships TestDb.inspector) !! "posts") ↔
   ∃ table fk,
     table ∈ get_table_names TestDb.inspector ∧
     is_association_table table (get_foreign_keys TestDb.inspector table)
       TestDb.inspector = true ∧
     fk ∈ get_foreign_keys TestDb.inspector table ∧ referred_table fk = "posts") ∧
  (∀ l, default ∅ (generate_many_to_many_relationships TestDb.inspector) !! "posts"
        = Some l → l ≠ []).
Proof.
  apply (generate_many_to_many_relationships_keys TestDb.inspector).
  vm_compute. reflexivity.
Defined.

(** X13. For an association table whose two foreign keys refer to the same
    table, the declaration and its mirror are the same text (same name, same
    class, same back-reference), and the entry of that table holds it twice
    in a row. *)
Theorem m2m_self_referential_twice (inspector : Inspector)
    (m : gmap string (list string)) (table parent class : string)
    (fk0 fk1 : ForeignKey) :
  generate_many_to_many_relationships inspector = Some m →
  table ∈ get_table_names inspector →
  is_association_table table (get_foreign_keys inspector table) inspector = true →
  get_foreign_keys inspector table = [fk0; fk1] →
  referred_table fk0 = parent →
  referred_table fk1 = parent →
  camel_case parent = Some class →
  let rel := m2m_rel (parent +:+ "s") class table (parent +:+ "s") in
  ∃ before after, decls m parent = before ++ [rel; rel] ++ after.
Proof.
  intros Hm Hin Hassoc Hfks H0 H1 Hcls rel. subst rel.
  unfold generate_many_to_many_relationships in Hm.
  pose proof (m2m_loop_decls _ _ _ _ Hm parent) as Hdecls.
  unfold decls at 2 in Hdecls. rewrite lookup_empty in Hdecls. cbn in Hdecls.
  apply list_elem_of_split in Hin as (l1 & l2 & Hnames).
  rewrite Hnames, bind_app, bind_cons in Hdecls.
  eexists _, _. rewrite Hdecls. f_equal. f_equal.
  unfold m2m_declarations. rewrite Hassoc, Hfks, H0, H1, Hcls.
  by rewrite decide_True.
Qed.

Lemma m2m_self_referential_twice_witness :
  let rel := m2m_rel ("users" +:+ "s") "Users" "follows" ("users" +:+ "s") in
  ∃ before after,
    decls (default ∅ (generate_many_to_many_relationships SelfLink.inspector)) "users"
    = before ++ [rel; rel] ++ after.
Proof.
  apply (m2m_self_referential_twice SelfLink.inspector _ "follows" "users" "Users"
           (TestDb.fkey "follower_id" "users" "id")
           (TestDb.fkey "followed_id" "users" "id")).
  - vm_compute. reflexivity.
  - apply (bool_decide_unpack _). vm_compute. exact I.
  - vm_compute. reflexivity.
  - reflexivity.
  - reflexivity.
  - reflexivity.
  - reflexivity.
Defined.

(** ** The full pass: when it succeeds, what it writes, what it leaves behind *)

Section Run.

Implicit Types (m : gmap string (list string)) (i : Inspector) (c : Column)
  (s : dict_ref → Column) (ids : list dict_ref).

Lemma generate_model_is_Some table_name cols relations :
  is_Some (generate_model table_name cols relations) ↔ has_word table_name.
Proof.
  rewrite <- camel_case_is_Some. unfold generate_model.
  destruct (camel_case table_name); cbn; split; intros [? ?]; by eexists.
Qed.

Lemma generate_relationships_is_Some table_name i :
  is_association_table table_name (get_foreign_keys i table_name) i = false →
  is_Some (generate_relationships table_name i) ↔
  ∀ fk, fk ∈ get_foreign_keys i table_name → has_word (referred_table fk).
Proof.
  intros Hentity. unfold generate_relationships. rewrite Hentity.
  rewrite mapM_is_Some, Forall_forall.
  split; intros H fk Hin.
  - apply camel_case_is_Some, (relation_of_fk_is_Some table_name i fk).
    exact (H fk Hin).
  - cbn. apply (relation_of_fk_is_Some table_name i fk), camel_case_is_Some.
    by apply H.
Qed.

(** Whether the block of a table can be written does not depend on its
    columns. *)
Lemma table_block_is_Some i m table columns :
  is_Some (table_block i m table columns) ↔ block_ok i table.
Proof.
  unfold table_block, block_ok.
  destruct (is_association_table _ _ _) eqn:Hassoc.
  - split; [by left | by eexists].
  - rewrite <- (generate_relationships_is_Some table i Hassoc).
    destruct (generate_relationships table i) as [rels|]; cbn [mbind option_bind].
    + pose proof (generate_model_is_Some table columns
                    (match m !! table with
                     | Some l => rels ++ l
                     | None => rels
                     end)) as Hmodel.
      destruct (generate_model table columns _) as [model|]; cbn [mbind option_bind].
      * split; [intros _ | by eexists].
        right. split; [done |]. split; [by eexists |]. apply Hmodel. by eexists.
      * split; [by intros [? [=]] |]. intros [[=] | (_ & _ & Hword)].
        apply Hmodel in Hword. by destruct Hword as [? [=]].
    + split; [by intros [? [=]] |]. by intros [[=] | (_ & [? [=]] & _)].
Qed.

Lemma emit_tables_prefix m tables : ∀ output i output' i',
  emit_tables m (output, i) tables = Some (output', i') →
  ∃ rest, output' = output +:+ rest.
Proof.
  induction tables as [|t rest IH]; intros output i output' i' Hrun.
  - injection Hrun as <- <-. exists "". by rewrite sapp_nil_r.
  - cbn [emit_tables emit_table] in Hrun.
    destruct (resolve_dicts (dict_store i) (column_dicts i t)) as [s1|];
      [| discriminate Hrun].
    cbn [mbind option_bind] in Hrun.
    destruct (table_block _ m t _) as [block|]; [| discriminate Hrun].
    cbn [mbind option_bind] in Hrun.
    destruct (IH _ _ _ _ Hrun) as [tail ->].
    exists (block +:+ tail). by rewrite sapp_assoc.
Qed.

(** The loop over the tables returns when every block can be written and
    the dicts can be updated one table after the other. *)
Lemma emit_tables_is_Some m tables : ∀ output i,
  is_Some (emit_tables m (output, i) tables) ↔
  (∀ t, t ∈ tables → block_ok i t) ∧
  is_Some (resolve_dicts (dict_store i) (t ← tables; column_dicts i t)).
Proof.
  induction tables as [|t0 rest IH]; intros output i.
  - cbn. split; [intros _ | by eexists].
    split; [by intros t ?%elem_of_nil | by eexists].
  - cbn [emit_tables emit_table]. rewrite bind_cons, resolve_dicts_app.
    destruct (resolve_dicts (dict_store i) (column_dicts i t0)) as [s1|];
      cbn [mbind option_bind].
    2:{ split; [by intros [? [=]] | by intros [_ [? [=]]]]. }
    pose proof (table_block_is_Some (with_store i s1) m t0
                  (get_columns (with_store i s1) t0)) as Hblock.
    destruct (table_block (with_store i s1) m t0 _) as [block|];
      cbn [mbind option_bind].
    + rewrite (IH (output +:+ block) (with_store i s1)).
      cbn [with_store column_dicts dict_store].
      split; intros [Hall Hres]; (split; [| exact Hres]).
      * intros t [-> | Ht]%elem_of_cons; [apply Hblock; by eexists | by apply Hall].
      * intros t Ht. apply Hall. by right.
    + split; [by intros [? [=]] |]. intros [Hall _].
      assert (block_ok (with_store i s1) t0) as Hok by (apply Hall; by left).
      apply Hblock in Hok. by destruct Hok as [? [=]].
Qed.

Lemma filter_eq_cons (r r0 : dict_ref) ids :
  length (filter (λ x, x = r) (r0 :: ids)) =
  (if decide (r0 = r) then 1 else 0) + length (filter (λ x, x = r) ids).
Proof. rewrite filter_cons. by destruct (decide (r0 = r)). Qed.

Lemma filter_eq_pos (r : dict_ref) ids :
  r ∈ ids → 0 < length (filter (λ x, x = r) ids).
Proof.
  intros Hin.
  assert (r ∈ filter (λ x, x = r) ids) as Hr by (by apply list_elem_of_filter).
  destruct (filter _ ids); [by apply elem_of_nil in Hr | cbn; lia].
Qed.

Lemma filter_eq_absent (r : dict_ref) ids :
  r ∉ ids → filter (λ x, x = r) ids = [].
Proof.
  induction ids as [|r0 ids IH]; intros Hnotin; [done |].
  rewrite filter_cons, decide_False.
  - apply IH. intros Hin. apply Hnotin. by right.
  - intros ->. apply Hnotin. by left.
Qed.

Lemma resolved_column_resolvable c :
  resolvable c → resolvable (resolved_column c) ↔ ¬ carries_target c.
Proof.
  unfold resolvable, carries_target, resolved_column.
  destruct c as [n t nu pk [[target str | s0] |]]; cbn; intros Hres.
  - split.
    + intros H (target' & str' & [= <- <-] & Hne). by apply Hne, H.
    + intros H s0 [= <-]. destruct (decide (target = "")) as [-> | Hne]; [done |].
      destruct H. by exists target, str.
  - split; [by intros _ (? & ? & [=] & _) | done].
  - split; [by intros _ (? & ? & [=] & _) | done].
Qed.

Lemma resolved_column_carries_no_target c : ¬ carries_target (resolved_column c).
Proof.
  unfold carries_target, resolved_column.
  destruct c as [n t nu pk [[target str | s0] |]]; cbn; by intros (? & ? & [=] & _).
Qed.

(** The loop over the dicts returns when every dict it comes to can be
    updated, and it comes once only to a dict that carries a target name. *)
Lemma resolve_dicts_is_Some ids : ∀ s,
  is_Some (resolve_dicts s ids) ↔
  ∀ r, r ∈ ids →
    resolvable (s r) ∧
    (carries_target (s r) → length (filter (λ x, x = r) ids) = 1).
Proof.
  induction ids as [|r0 ids IH]; intros s.
  - split; [by intros _ r ?%elem_of_nil | by eexists].
  - cbn [resolve_dicts].
    destruct (resolve_foreign_key (s r0)) as [c|] eqn:Hc; cbn [mbind option_bind].
    + apply resolve_foreign_key_Some in Hc as [Hres0 ->].
      rewrite IH. unfold store_update. split.
      * intros H r Hr. rewrite filter_eq_cons.
        destruct (decide (r0 = r)) as [<- | Hne].
        -- split; [done |]. intros Hcar.
           destruct (decide (r0 ∈ ids)) as [Hin | Hnotin].
           ++ destruct (H r0 Hin) as [Hres _]. rewrite decide_True in Hres by done.
              by apply (resolved_column_resolvable _ Hres0) in Hres.
           ++ by rewrite (filter_eq_absent r0 ids Hnotin).
        -- apply elem_of_cons in Hr as [-> | Hr]; [done |].
           specialize (H r Hr). by rewrite decide_False in H by done.
      * intros G r Hr. destruct (decide (r = r0)) as [-> | Hne].
        -- split.
           ++ apply (resolved_column_resolvable _ Hres0). intros Hcar.
              destruct (G r0) as [_ Hone]; [by left |].
              specialize (Hone Hcar). rewrite filter_eq_cons, decide_True in Hone by done.
              pose proof (filter_eq_pos r0 ids Hr). lia.
           ++ intros Hcar. by apply resolved_column_carries_no_target in Hcar.
        -- destruct (G r) as [Hres Hone]; [by right |].
           split; [done |]. intros Hcar. specialize (Hone Hcar).
           by rewrite filter_eq_cons, decide_False in Hone by done.
    + split; [by intros [? [=]] |]. intros G.
      destruct (G r0) as [Hres _]; [by left |].
      assert (resolve_foreign_key (s r0) = Some (resolved_column (s r0))) as Hsome
        by (by apply resolve_foreign_key_Some).
      rewrite Hsome in Hc. discriminate Hc.
Qed.

End Run.

(** X14. Whatever the schema, the text of a run that succeeds begins with
    the preamble. *)
Theorem generate_models_content_starts_with_preamble (inspector : Inspector)
    (output : string) (inspector' : Inspector) :
  generate_models_content inspector = Some (output, inspector') →
  ∃ rest, output = preamble +:+ rest.
Proof.
  unfold generate_models_content. intros Hrun.
  destruct (generate_many_to_many_relationships inspector) as [m|]; [| discriminate Hrun].
  by apply (emit_tables_prefix m _ _ _ _ _ Hrun).
Qed.

Lemma generate_models_content_starts_with_preamble_witness :
  ∃ rest, (run_of TestDb.inspector).1 = preamble +:+ rest.
Proof.
  apply (generate_models_content_starts_with_preamble TestDb.inspector
           (run_of TestDb.inspector).1 (run_of TestDb.inspector).2).
  vm_compute. reflexivity.
Defined.

(** X15. The run succeeds exactly when, for every listed table, every
    table a foreign key refers to has a name with a character other than
    underscore, hyphen and space, and so has the table itself unless it is an
    association table; and, of the column dicts of the listed tables, none
    has a non-empty string as its ["foreign_key"] entry and each one that has
    a foreign-key object with a non-empty target name is come to once only
    (it is not returned for two listed tables, twice for one table, or for a
    table that is listed twice). *)
Theorem generate_models_content_succeeds_iff (inspector : Inspector) :
  is_Some (generate_models_content inspector) ↔
  (∀ table, table ∈ get_table_names inspector → table_ok inspector table) ∧
  dicts_ok inspector.
Proof.
  unfold dicts_ok, visit_count, visits, table_ok.
  rewrite <- (resolve_dicts_is_Some _ (dict_store inspector)).
  unfold generate_models_content. split.
  - intros Hsome.
    destruct (generate_many_to_many_relationships inspector) as [m|] eqn:Hm;
      [| by destruct Hsome].
    cbn [mbind option_bind] in Hsome.
    apply emit_tables_is_Some in Hsome as [Hblocks Hres]. split; [| done].
    intros table Hin.
    unfold generate_many_to_many_relationships in Hm.
    apply m2m_loop_ok in Hm. unfold m2m_names_ok in Hm.
    rewrite Forall_forall in Hm. specialize (Hm table Hin).
    destruct (Hblocks table Hin) as [Hassoc | (Hentity & Hfks & Hword)].
    + split; [| by rewrite Hassoc]. intros fk Hfk.
      specialize (Hm Hassoc). rewrite Forall_forall in Hm.
      by apply camel_case_is_Some, Hm.
    + done.
  - intros [Hok Hres].
    destruct (generate_many_to_many_relationships_decls inspector) as (m & -> & _).
    { apply Forall_forall. intros table Hin _. apply Forall_forall. intros fk Hfk.
      apply camel_case_is_Some. by apply (Hok table Hin). }
    cbn [mbind option_bind]. apply emit_tables_is_Some. split; [| done].
    intros table Hin. destruct (Hok table Hin) as [Hfks Hword].
    unfold block_ok.
    destruct (is_association_table table _ inspector); [by left | right].
    split; [done |]. split; [done |]. by apply Hword.
Qed.

(** X16. A run that succeeds changes nothing but the ["foreign_key"]
    entries of the column dicts it went through, those of the listed tables:
    the list of tables, the dict objects returned for each table, the primary
    keys and the foreign keys are as before; a dict of a listed table whose
    entry was a foreign-key object now has the string of its target name, all
    else unchanged; every other dict is as it was.  A dict that is also
    returned for a table that is not listed is seen updated there too. *)
Theorem generate_models_content_updates_columns (inspector : Inspector)
    (output : string) (inspector' : Inspector) :
  generate_models_content inspector = Some (output, inspector') →
  get_table_names inspector' = get_table_names inspector ∧
  column_dicts inspector' = column_dicts inspector ∧
  get_pk_constraint inspector' = get_pk_constraint inspector ∧
  get_foreign_keys inspector' = get_foreign_keys inspector ∧
  ∀ r, dict_store inspector' r =
       if decide (r ∈ visits inspector)
       then resolved_column (dict_store inspector r)
       else dict_store inspector r.
Proof.
  unfold generate_models_content. intros Hrun.
  destruct (generate_many_to_many_relationships inspector) as [m|]; [| discriminate Hrun].
  by apply (emit_tables_store m _ _ _ _ _ Hrun).
Qed.

Lemma generate_models_content_updates_columns_witness :
  get_table_names (run_of WithFkObjects.inspector).2
    = get_table_names WithFkObjects.inspector ∧
  column_dicts (run_of WithFkObjects.inspector).2
    = column_dicts WithFkObjects.inspector ∧
  get_pk_constraint (run_of WithFkObjects.inspector).2
    = get_pk_constraint WithFkObjects.inspector ∧
  get_foreign_keys (run_of WithFkObjects.inspector).2
    = get_foreign_keys WithFkObjects.inspector ∧
  ∀ r, dict_store (run_of WithFkObjects.inspector).2 r =
       if decide (r ∈ visits WithFkObjects.inspector)
       then resolved_column (dict_store WithFkObjects.inspector r)
       else dict_store WithFkObjects.inspector r.
Proof.
  apply (generate_models_content_updates_columns WithFkObjects.inspector
           (run_of WithFkObjects.inspector).1).
  vm_compute. reflexivity.
Defined.

(** X17. The run cannot be repeated over column dicts that carried a
    foreign-key object: if the first run succeeds and a column of a listed
    table had a foreign-key object with a non-empty target name, a second run
    over the column dicts the first one left fails (the entry is now a
    string, and a string has no [target_fullname]). *)
Theorem generate_models_content_second_run_fails (inspector : Inspector)
    (output : string) (inspector' : Inspector)
    (t : string) (c : Column) (target str : string) :
  generate_models_content inspector = Some (output, inspector') →
  t ∈ get_table_names inspector →
  c ∈ get_columns inspector t →
  foreign_key c = Some (FkObject target str) →
  target ≠ "" →
  generate_models_content inspector' = None.
Proof.
  unfold generate_models_content at 1. intros Hrun Ht Hc Hfk Htarget.
  destruct (generate_many_to_many_relationships inspector) as [m|]; [| discriminate Hrun].
  cbn [mbind option_bind] in Hrun.
  destruct (emit_tables_store m _ _ _ _ _ Hrun) as (Hnames & Hids & _ & _ & Hstore).
  unfold get_columns in Hc. apply list_elem_of_fmap in Hc as (r & -> & Hr).
  assert (r ∈ (t' ← get_table_names inspector; column_dicts inspector t')) as Hvisit
    by (by apply (elem_of_bind_table _ _ t)).
  specialize (Hstore r). rewrite decide_True in Hstore by done.
  unfold generate_models_content.
  destruct (generate_many_to_many_relationships inspector') as [m'|]; [| reflexivity].
  cbn [mbind option_bind]. apply eq_None_not_Some.
  intros [_ Hres]%emit_tables_is_Some.
  rewrite Hnames, Hids in Hres.
  rewrite (resolve_dicts_unresolvable _ _ r Hvisit) in Hres; [by destruct Hres |].
  rewrite Hstore. intros Hok. apply Htarget, (Hok target).
  unfold resolved_column. cbn. by rewrite Hfk.
Qed.

Lemma generate_models_content_second_run_fails_witness :
  generate_models_content (run_of WithFkObjects.inspector).2 = None.
Proof.
  apply (generate_models_content_second_run_fails WithFkObjects.inspector
           (run_of WithFkObjects.inspector).1 (run_of WithFkObjects.inspector).2
           "posts"
           (TestDb.col "user_id" "INTEGER" true false
              (Some (FkObject "users.id" "ForeignKey('users.id')")))
           "users.id" "ForeignKey('users.id')").
  - vm_compute. reflexivity.
  - apply (bool_decide_unpack _). vm_compute. exact I.
  - apply list_elem_of_In. right. left. reflexivity.
  - reflexivity.
  - discriminate.
Defined.
(** ** Writing the models out *)

(** Without a file name, the name being absent or the empty string,
    [output_models] cannot fail and touches no file: the content goes to the
    standard output and the note to the standard error, so that the standard
    output holds nothing but the content. *)
Theorem output_models_without_file (content : string) (output_file : option string)
    (w : World) :
  output_file = None ∨ output_file = Some "" →
  ∃ w', output_models content output_file w = Some w' ∧
        files w' = files w ∧
        stdout w' = stdout w +:+ content +:+ PyStr.nl ∧
        stderr w' = stderr w +:+ "Models have been printed to stdout" +:+ PyStr.nl.
Proof. intros [-> | ->]; by eexists. Qed.

Lemma output_models_without_file_witness :
  ∃ w', output_models "text" (Some "") world_with_old_models = Some w' ∧
        files w' = files world_with_old_models ∧
        stdout w' = stdout world_with_old_models +:+ "text" +:+ PyStr.nl ∧
        stderr w' = stderr world_with_old_models
                      +:+ "Models have been printed to stdout" +:+ PyStr.nl.
Proof.
  apply (output_models_without_file "text" (Some "") world_with_old_models).
  right. reflexivity.
Defined.

(** X18. Writing to a file replaces what the file held: after two writes
    to the same path that succeed, the file holds the second content alone,
    every other file is as it was, nothing went to the standard error, and
    the standard output got the two notes and neither content. *)
Theorem output_models_overwrites (content1 content2 path : string) (w w1 w2 : World) :
  output_models content1 (Some path) w = Some w1 →
  output_models content2 (Some path) w1 = Some w2 →
  path ≠ "" →
  files w2 !! path = Some content2 ∧
  (∀ other, other ≠ path → files w2 !! other = files w !! other) ∧
  stderr w2 = stderr w ∧
  stdout w2 = stdout w +:+ "Models have been written to " +:+ path +:+ PyStr.nl
                       +:+ "Models have been written to " +:+ path +:+ PyStr.nl.
Proof.
  intros H1 H2 Hpath. unfold output_models in H1, H2.
  apply String.eqb_neq in Hpath. rewrite Hpath in H1, H2. cbn [negb] in H1, H2.
  destruct (can_open w path); [| discriminate H1]. injection H1 as <-.
  cbn [can_open] in H2.
  destruct (can_open w path); [| discriminate H2]. injection H2 as <-.
  cbn [files stderr stdout]. split; [by rewrite lookup_insert_eq |].
  split; [| split; [done |]].
  - intros other Hne. by rewrite !lookup_insert_ne.
  - unfold print. by rewrite !sapp_assoc.
Qed.

Lemma output_models_overwrites_witness :
  files (default world_with_old_models
           (w1 ← output_models "first" (Some "models.py") world_with_old_models;
            output_models "second" (Some "models.py") w1)) !! "models.py"
    = Some "second" ∧
  (∀ other, other ≠ "models.py" →
     files (default world_with_old_models
              (w1 ← output_models "first" (Some "models.py") world_with_old_models;
               output_models "second" (Some "models.py") w1)) !! other
       = files world_with_old_models !! other) ∧
  stderr (default world_with_old_models
            (w1 ← output_models "first" (Some "models.py") world_with_old_models;
             output_models "second" (Some "models.py") w1))
    = stderr world_with_old_models ∧
  stdout (default world_with_old_models
            (w1 ← output_models "first" (Some "models.py") world_with_old_models;
             output_models "second" (Some "models.py") w1))
    = stdout world_with_old_models
        +:+ "Models have been written to " +:+ "models.py" +:+ PyStr.nl
        +:+ "Models have been written to " +:+ "models.py" +:+ PyStr.nl.
Proof.
  apply (output_models_overwrites "first" "second" "models.py" world_with_old_models
           (default world_with_old_models
              (output_models "first" (Some "models.py") world_with_old_models))).
  - reflexivity.
  - reflexivity.
  - discriminate.
Defined.

